(** * youtube-moment: the candidate-retrieval and selection pipeline

    A shallow embedding of [services/youtubeService.ts] and
    [services/geminiService.ts], and the properties of the duration
    classifier, the catalog client, the candidate aggregator and the
    ranking-oracle adapter that the specification states about them. *)

From Stdlib Require Import ZArith NArith List Bool Lia String Ascii.
From Stdlib Require Import Floats.SpecFloat.
From Stdlib Require Import DecimalN DecimalPos DecimalFacts.
Import ListNotations.

Local Open Scope Z_scope.

(** ** JavaScript strings

    A JavaScript string is a sequence of UTF-16 code units.  The regular
    expressions of the two services carry no [u] flag, so they too work on
    code units. *)

Definition jsstring := list N.

Definition lit (s : string) : jsstring :=
  map (fun a => N_of_ascii a) (list_ascii_of_string s).

Definition jsstring_eqb (a b : jsstring) : bool :=
  if list_eq_dec N.eq_dec a b then true else false.

(** ** JavaScript numbers

    A [number] is an IEEE-754 binary64 value; [Floats.SpecFloat] gives its
    arithmetic with round-to-nearest-even.  Integer-valued numbers that the
    services only add, multiply by integers and compare (component counts,
    seconds, result caps) are kept in [Z] and [N]: binary64 arithmetic is
    exact on them up to 2^53.  The numbers read from the strings of the
    catalog can be larger; the statements that depend on their value carry
    the bound. *)

Module Number.

Definition prec : Z := 53.
Definition emax : Z := 1024.

Definition of_Z (z : Z) : spec_float := binary_normalize prec emax z 0 false.

Definition mul : spec_float -> spec_float -> spec_float := SFmul prec emax.
Definition div : spec_float -> spec_float -> spec_float := SFdiv prec emax.

(** The literal [0.8]: the binary64 value nearest to 4/5,
    [0x1.999999999999Ap-1]. *)
Definition lit_0_8 : spec_float := S754_finite false 7205759403792794 (-53).

(** [Math.floor] of a finite value, as an integer.  The non-finite values
    (which [Math.floor] returns unchanged) do not arise from products of
    integers below 2^1000; they are mapped to 0. *)
Definition floor (x : spec_float) : Z :=
  match x with
  | S754_finite s m e => Z.shiftl (cond_Zopp s (Zpos m)) e
  | _ => 0
  end.

End Number.

(** ** Duration classifier ([youtubeService.ts], [getDurationRange]) *)

Record DurationBand := { band_min : Z; band_max : Z }.

Definition getDurationRange (targetMinutes : Z) : DurationBand :=
  let t := Number.of_Z targetMinutes in
  let minSeconds :=
    Z.max 60 (Number.floor
                (Number.mul (Number.mul t Number.lit_0_8) (Number.of_Z 60))) in
  let maxSeconds :=
    Number.floor (Number.mul (Number.mul t (Number.of_Z 2)) (Number.of_Z 60)) in
  {| band_min := minSeconds; band_max := maxSeconds |}.

(** [minutesToSeconds] *)
Definition minutesToSeconds (minutes : Z) : Z := minutes * 60.

(** The formula of the specification, in exact arithmetic:
    [min = max(60, floor(target*0.8*60))], [max = floor(target*2*60)], with
    0.8 the rational 8/10. *)
Definition getDurationRange_spec (target : Z) : DurationBand :=
  {| band_min := Z.max 60 ((target * 8 * 60) / 10);
     band_max := target * 2 * 60 |}.

Definition band_eqb (a b : DurationBand) : bool :=
  (band_min a =? band_min b) && (band_max a =? band_max b).

(** ** Characters and decimal numerals *)

Definition ch (a : ascii) : N := N_of_ascii a.

Definition is_digit (c : N) : bool := ((48 <=? c) && (c <=? 57))%N.

(** [\w] is [[A-Za-z0-9_]]. *)
Definition is_word (c : N) : bool :=
  (((65 <=? c) && (c <=? 90)) || ((97 <=? c) && (c <=? 122))
   || is_digit c || (c =? 95))%N.

(** [\s], which is also what [trim] removes: the WhiteSpace and
    LineTerminator code points of ECMAScript. *)
Definition is_space (c : N) : bool :=
  (((9 <=? c) && (c <=? 13)) || (c =? 32) || (c =? 160) || (c =? 5760)
   || ((8192 <=? c) && (c <=? 8202)) || (c =? 8232) || (c =? 8233)
   || (c =? 8239) || (c =? 8287) || (c =? 12288) || (c =? 65279))%N.

Fixpoint digits_of_uint (u : Decimal.uint) : jsstring :=
  match u with
  | Decimal.Nil => []
  | Decimal.D0 u => 48%N :: digits_of_uint u
  | Decimal.D1 u => 49%N :: digits_of_uint u
  | Decimal.D2 u => 50%N :: digits_of_uint u
  | Decimal.D3 u => 51%N :: digits_of_uint u
  | Decimal.D4 u => 52%N :: digits_of_uint u
  | Decimal.D5 u => 53%N :: digits_of_uint u
  | Decimal.D6 u => 54%N :: digits_of_uint u
  | Decimal.D7 u => 55%N :: digits_of_uint u
  | Decimal.D8 u => 56%N :: digits_of_uint u
  | Decimal.D9 u => 57%N :: digits_of_uint u
  end.

Fixpoint uint_of_digits (ds : jsstring) : Decimal.uint :=
  match ds with
  | [] => Decimal.Nil
  | c :: r =>
      let u := uint_of_digits r in
      match c with
      | 48%N => Decimal.D0 u | 49%N => Decimal.D1 u | 50%N => Decimal.D2 u
      | 51%N => Decimal.D3 u | 52%N => Decimal.D4 u | 53%N => Decimal.D5 u
      | 54%N => Decimal.D6 u | 55%N => Decimal.D7 u | 56%N => Decimal.D8 u
      | 57%N => Decimal.D9 u
      | _ => Decimal.Nil
      end
  end.

(** [n.toString()] for a non-negative integer. *)
Definition toString (n : N) : jsstring := digits_of_uint (N.to_uint n).

(** [parseInt(ds, 10)] on a run of decimal digits. *)
Definition parseInt_digits (ds : jsstring) : N := N.of_uint (uint_of_digits ds).

(** [s.padStart(target, c)] for a one-character filler. *)
Definition padStart (target : nat) (c : N) (s : jsstring) : jsstring :=
  repeat c (target - List.length s) ++ s.

(** ** ISO-8601 durations ([youtubeService.ts], [formatDuration])

    The pattern [/PT(?:(\d+)H)?(?:(\d+)M)?(?:(\d+)S)?/] is not anchored:
    [match] takes the leftmost position where [PT] stands.  Each optional
    group is greedy and what follows it can always match the empty string, so
    a group captures exactly when a non-empty run of digits is followed by its
    letter, and is skipped otherwise. *)

Fixpoint span_digits (s : jsstring) : jsstring * jsstring :=
  match s with
  | c :: r =>
      if is_digit c then let (ds, rest) := span_digits r in (c :: ds, rest)
      else ([], s)
  | [] => ([], [])
  end.

(** [(?:(\d+)X)?] at the head of [s]: the capture, and what is left. *)
Definition component (unit : N) (s : jsstring) : option jsstring * jsstring :=
  match span_digits s with
  | (d :: ds, c :: rest) =>
      if (c =? unit)%N then (Some (d :: ds), rest) else (None, s)
  | _ => (None, s)
  end.

(** The captures [match[1]], [match[2]], [match[3]]; [None] is [undefined]. *)
Definition Captures : Type := option jsstring * option jsstring * option jsstring.

Definition match_here (s : jsstring) : option Captures :=
  match s with
  | p :: t :: r =>
      if ((p =? ch "P") && (t =? ch "T"))%N then
        let (h, r1) := component (ch "H") r in
        let (m, r2) := component (ch "M") r1 in
        let (sec, _) := component (ch "S") r2 in
        Some (h, m, sec)
      else None
  | _ => None
  end.

Fixpoint durationMatch (s : jsstring) : option Captures :=
  match match_here s with
  | Some c => Some c
  | None => match s with
            | [] => None
            | _ :: r => durationMatch r
            end
  end.

(** [g || '0'] on a capture: [undefined] and the empty string are falsy. *)
Definition capture_or (g : option jsstring) (dflt : jsstring) : jsstring :=
  match g with
  | Some (c :: r) => c :: r
  | _ => dflt
  end.

Definition formatDuration (isoDuration : jsstring) : jsstring :=
  match durationMatch isoDuration with
  | None => lit "0:00"
  | Some (h, m, s) =>
      let hours := parseInt_digits (capture_or h (lit "0")) in
      let minutes := parseInt_digits (capture_or m (lit "0")) in
      let seconds := parseInt_digits (capture_or s (lit "0")) in
      if (0 <? hours)%N then
        toString hours ++ lit ":" ++ padStart 2 (ch "0") (toString minutes)
          ++ lit ":" ++ padStart 2 (ch "0") (toString seconds)
      else
        toString minutes ++ lit ":" ++ padStart 2 (ch "0") (toString seconds)
  end.

(** The seconds a duration stands for, as [searchVideos] computes them.
    The arithmetic here is that of the integers; [parseInt] and binary64
    agree with it as long as the total, and so each component, is at most
    [Number.MAX_SAFE_INTEGER], and round beyond.  The statements that depend
    on the value read say so ([exact_duration] below).  Against bounds
    below that limit, as the pipeline's are, rounding changes no
    comparison. *)
Definition totalSeconds (c : Captures) : Z :=
  let '(h, m, s) := c in
  let hours := parseInt_digits (capture_or h (lit "0")) in
  let minutes := parseInt_digits (capture_or m (lit "0")) in
  let seconds := parseInt_digits (capture_or s (lit "0")) in
  Z.of_N hours * 3600 + Z.of_N minutes * 60 + Z.of_N seconds.


(** [parseInt(s, 10)] on any string: leading white space is skipped, a sign
    is read, then the longest run of digits; [NaN] when there is none.  The
    value is the exact integer, which is what [parseInt] gives up to
    [Number.MAX_SAFE_INTEGER]; beyond, it rounds ([exact_count] below). *)
Inductive JsInt := NaN | Int (z : Z).

Fixpoint trimStart (s : jsstring) : jsstring :=
  match s with
  | c :: r => if is_space c then trimStart r else s
  | [] => []
  end.

Definition parseInt10 (s : jsstring) : JsInt :=
  let s1 := trimStart s in
  let '(neg, s2) :=
    match s1 with
    | c :: r => if (c =? ch "-")%N then (true, r)
                else if (c =? ch "+")%N then (false, r) else (false, s1)
    | [] => (false, [])
    end in
  match fst (span_digits s2) with
  | [] => NaN
  | ds => Int (cond_Zopp neg (Z.of_N (parseInt_digits ds)))
  end.

(** ** Thrown values

    What a [throw] carries: an [Error] object with its message, or some
    other value.  Each [Error] also records which [new Error] made it (the
    kind); the kind is not visible to the program, which only reads
    messages. *)

Inductive ErrorKind :=
| CatalogUnavailable      (* the catalog client: code 403 *)
| CatalogRequestError     (* the catalog client: any other failure of its own *)
| NoCandidates            (* fetchVideoSuggestion: no video left *)
| OracleResponseInvalid   (* fetchVideoSuggestion: reply unusable *)
| ApiKeyError             (* fetchVideoSuggestion: re-labelled in its catch *)
| QuotaExceeded
| NetworkError
| UnknownFailure
| InvalidIdentity         (* validateAndFetchVideoData: the format check *)
| NotFound                (* validateAndFetchVideoData: 404, or no item *)
| InvalidInput            (* no [throw] makes it: App refuses a request
                             without moods by setting its error text *)
| External.               (* made outside the two services: by [fetch],
                             by the oracle client, or by the engine (a
                             [TypeError]) *)

Inductive Thrown :=
| ErrorObj (kind : ErrorKind) (message : jsstring)
| NonError.

(** What code outside the two services throws ([fetch], the body reader, the
    Gemini client): an [Error] with some message, or another value. *)
Inductive Foreign :=
| ForeignError (message : jsstring)
| ForeignValue.

Definition thrown_of (f : Foreign) : Thrown :=
  match f with
  | ForeignError m => ErrorObj External m
  | ForeignValue => NonError
  end.

Definition Result (A : Type) : Type := (Thrown + A)%type.

(** ** Catalog client ([youtubeService.ts]) *)

Record YouTubeVideoData := {
  videoId : jsstring;
  title : jsstring;
  channelName : jsstring;
  channelId : jsstring;
  duration : jsstring;
  durationFormatted : jsstring;
  thumbnailUrl : jsstring;
  publishedAt : jsstring;
  description : jsstring;
  viewCount : option JsInt
}.

(** *** The remote API, as the client sees it *)

Inductive VideoDuration := vd_short | vd_medium | vd_long.

(** The query parameters of [/youtube/v3/search]; [part=snippet],
    [type=video] and [order=relevance] are constant. *)
Record SearchRequest := {
  sr_q : jsstring;
  sr_key : jsstring;
  sr_maxResults : Z;
  sr_videoDuration : VideoDuration
}.

Record ErrorData := { ed_code : option Z; ed_message : option jsstring }.

(** A response to [fetch]: the call rejects ([fetch] itself or reading the
    body of a 2xx response), or answers outside 2xx (with the error body when
    it is JSON), or answers with a body. *)
Inductive Http (A : Type) :=
| Rejected (f : Foreign)
| NotOk (status : Z) (statusText : jsstring) (body : option ErrorData)
| Ok (body : A).
Arguments Rejected {A} f.
Arguments NotOk {A} status statusText body.
Arguments Ok {A} body.

(** [item.id.videoId] of a search hit; [None] is [undefined]. *)
Definition SearchItem := option jsstring.

Record Thumbnails := {
  th_high : option jsstring;      (* thumbnails?.high?.url *)
  th_medium : option jsstring;
  th_default : option jsstring
}.

Record Snippet := {
  sn_title : jsstring;
  sn_channelTitle : jsstring;
  sn_channelId : jsstring;
  sn_description : option jsstring;
  sn_publishedAt : jsstring;
  sn_thumbnails : Thumbnails
}.

Record VideoItem := {
  vi_id : jsstring;
  vi_snippet : option Snippet;
  (* contentDetails and, in it, duration: either may be missing *)
  vi_contentDetails : option (option jsstring);
  vi_viewCount : option jsstring         (* statistics?.viewCount *)
}.

(** The two endpoints; [items] may be missing from either body. *)
Record YouTube := {
  yt_search : SearchRequest -> Http (option (list SearchItem));
  yt_videos : jsstring -> jsstring -> Http (option (list VideoItem))
}.

(** [a || b] on strings that may be [undefined]. *)
Definition str_or (a : option jsstring) (b : jsstring) : jsstring :=
  match a with
  | Some (c :: r) => c :: r
  | _ => b
  end.

Definition join (sep : jsstring) (l : list jsstring) : jsstring :=
  match l with
  | [] => []
  | x :: r => x ++ flat_map (fun y => sep ++ y) r
  end.

Definition videoData (video : VideoItem) (snippet : Snippet)
    (duration : jsstring) : YouTubeVideoData :=
  let th := sn_thumbnails snippet in
  {| videoId := vi_id video;
     title := sn_title snippet;
     channelName := sn_channelTitle snippet;
     channelId := sn_channelId snippet;
     duration := duration;
     durationFormatted := formatDuration duration;
     thumbnailUrl :=
       str_or (th_high th) (str_or (th_medium th) (str_or (th_default th) []));
     publishedAt := sn_publishedAt snippet;
     description := str_or (sn_description snippet) [];
     viewCount := match vi_viewCount video with
                  | Some (c :: r) => Some (parseInt10 (c :: r))
                  | _ => None
                  end |}.

Section CatalogClient.

(** The message of the engine's [TypeError] for [duration.match(...)] when
    [duration] is [undefined]. *)
Variable msg_match_of_undefined : jsstring.

(** Step 3 of [searchVideos]: the loop over [detailsData.items], with
    [results] the array built so far.  An item that has [contentDetails]
    without a [duration] makes [duration.match] throw. *)
Fixpoint filterByDuration (maxResults : Z) (minDurationSeconds
    maxDurationSeconds : option Z) (items : list VideoItem)
    (results : list YouTubeVideoData) : Result (list YouTubeVideoData) :=
  match items with
  | [] => inr results
  | video :: rest =>
      let continue :=
        filterByDuration maxResults minDurationSeconds maxDurationSeconds
          rest in
      match vi_snippet video, vi_contentDetails video with
      | Some snippet, Some contentDetails =>
          match contentDetails with
          | None => inl (ErrorObj External msg_match_of_undefined)
          | Some duration =>
              match durationMatch duration with
              | None => continue results
              | Some durationMatch =>
                  let total := totalSeconds durationMatch in
                  if match minDurationSeconds with
                     | Some lo => total <? lo
                     | None => false
                     end then continue results
                  else if match maxDurationSeconds with
                          | Some hi => hi <? total
                          | None => false
                          end then continue results
                  else
                    let results' :=
                      results ++ [videoData video snippet duration] in
                    if maxResults <=? Z.of_nat (List.length results')
                    then inr results'
                    else continue results'
              end
          end
      | _, _ => continue results
      end
  end.

Definition searchRequest (query apiKey : jsstring) (maxResults : Z)
    (maxDurationSeconds : option Z) : SearchRequest :=
  {| sr_q := query;
     sr_key := apiKey;
     sr_maxResults := Z.min (maxResults * 2) 50;
     sr_videoDuration :=
       match maxDurationSeconds with
       | Some hi => if hi <=? 240 then vd_short
                    else if hi <=? 1200 then vd_medium
                    else vd_long
       | None => vd_medium
       end |}.

(** The body of the [try] of [searchVideos]. *)
Definition searchVideos_try (yt : YouTube) (query apiKey : jsstring)
    (maxResults : Z) (minDurationSeconds maxDurationSeconds : option Z)
    : Result (list YouTubeVideoData) :=
  match yt_search yt (searchRequest query apiKey maxResults maxDurationSeconds) with
  | Rejected f => inl (thrown_of f)
  | NotOk status statusText body =>
      let errorData :=
        match body with
        | Some d => d
        | None =>
            {| ed_code := Some status;
               ed_message := Some (lit "HTTP " ++ toString (Z.to_N status)
                                     ++ lit ": " ++ statusText) |}
        end in
      if match ed_code errorData with Some c => c =? 403 | None => false end
      then inl (ErrorObj CatalogUnavailable
                  (lit "YouTube API quota exceeded or API key invalid. Please check your API key and quota."))
      else inl (ErrorObj CatalogRequestError
                  (lit "YouTube Search API error: "
                     ++ str_or (ed_message errorData) statusText))
  | Ok None | Ok (Some []) => inr []
  | Ok (Some items) =>
      let videoIds :=
        flat_map (fun item : SearchItem =>
                    match item with
                    | Some (c :: r) => [c :: r]
                    | _ => []
                    end) items in
      match videoIds with
      | [] => inr []
      | _ =>
          match yt_videos yt (join (lit ",") videoIds) apiKey with
          | Rejected f => inl (thrown_of f)
          | NotOk _ _ _ =>
              inl (ErrorObj CatalogRequestError
                     (lit "Failed to fetch video details from YouTube API"))
          | Ok None | Ok (Some []) => inr []
          | Ok (Some detailsItems) =>
              filterByDuration maxResults minDurationSeconds
                maxDurationSeconds detailsItems []
          end
      end
  end.

(** [searchVideos]: [maxResults] defaults to 20; the [catch] passes [Error]
    objects on and replaces anything else. *)
Definition searchVideos (yt : YouTube) (query apiKey : jsstring)
    (maxResults : option Z) (minDurationSeconds maxDurationSeconds : option Z)
    : Result (list YouTubeVideoData) :=
  let maxResults := match maxResults with Some n => n | None => 20 end in
  match searchVideos_try yt query apiKey maxResults minDurationSeconds
          maxDurationSeconds with
  | inl (ErrorObj k m) => inl (ErrorObj k m)
  | inl NonError =>
      inl (ErrorObj CatalogRequestError
             (lit "Failed to search videos from YouTube API"))
  | inr videos => inr videos
  end.

End CatalogClient.


(** ** Ranking oracle and pipeline ([geminiService.ts]) *)

(** What [JSON.parse] returns. *)
#[local] Unset Elimination Schemes.
Inductive JsonValue :=
| JNull
| JBool (b : bool)
| JNumber (x : spec_float)
| JString (s : jsstring)
| JArray (l : list JsonValue)
| JObject (fields : list (jsstring * JsonValue)).
#[local] Set Elimination Schemes.

(** [v.name] for one of the three names the service reads; [None] is
    [undefined].  Only an object parsed from JSON can own such a property;
    [fields] lists the own properties of the object, each name once. *)
Definition get_prop (v : JsonValue) (name : jsstring) : option JsonValue :=
  match v with
  | JObject fields =>
      match find (fun f => jsstring_eqb (fst f) name) fields with
      | Some f => Some (snd f)
      | None => None
      end
  | _ => None
  end.

(** ToBoolean. *)
Definition truthy (v : option JsonValue) : bool :=
  match v with
  | None | Some JNull => false
  | Some (JBool b) => b
  | Some (JNumber (S754_zero _)) | Some (JNumber S754_nan) => false
  | Some (JNumber _) => true
  | Some (JString s) => match s with [] => false | _ => true end
  | Some (JArray _) | Some (JObject _) => true
  end.

(** Whether ToString of a value parsed from JSON returns, as a template
    literal needs.  An object converts by its [toString] and then its
    [valueOf]: an own property [toString] hides the inherited function and,
    coming from JSON, cannot be called, while [valueOf], inherited or own,
    gives no primitive; the conversion then throws a [TypeError].  An array
    converts by [join], which converts each element that is neither [null]
    nor [undefined]. *)
Fixpoint stringifiable (v : JsonValue) : bool :=
  match v with
  | JArray l => forallb stringifiable l
  | JObject fields =>
      negb (existsb (fun f => jsstring_eqb (fst f) (lit "toString")) fields)
  | _ => true
  end.

(** [id === v] for a string [id]. *)
Definition strict_eq (id : jsstring) (v : option JsonValue) : bool :=
  match v with
  | Some (JString s) => jsstring_eqb id s
  | _ => false
  end.

(** [VideoSuggestion] of [types.ts].  The two generated fields hold whatever
    the reply held: nothing checks them against the declared types. *)
Record VideoSuggestion := {
  vs_title : jsstring;
  vs_youtubeUrl : jsstring;
  vs_thumbnailUrl : jsstring;
  vs_channelName : jsstring;
  vs_duration : jsstring;
  vs_tags : JsonValue;
  vs_promotionalSummary : option JsonValue
}.

Definition Z_toString (z : Z) : jsstring :=
  if z <? 0 then lit "-" ++ toString (Z.to_N (- z)) else toString (Z.to_N z).

Definition getTimeDescription (time : Z) : jsstring :=
  if time <=? 5 then lit "around 5 minutes long or less"
  else if (5 <? time) && (time <=? 15) then lit "between 5 and 15 minutes long"
  else if (15 <? time) && (time <=? 30) then lit "between 15 and 30 minutes long"
  else if (30 <? time) && (time <=? 60) then lit "between 30 and 60 minutes long"
  else lit "between 1 and 2 hours long".

Definition trimEnd (s : jsstring) : jsstring := rev (trimStart (rev s)).
Definition trim (s : jsstring) : jsstring := trimEnd (trimStart s).

(** [mood.replace(/[^\w\s]/g, '').trim()], then [cleanMood || mood]. *)
Definition cleanMood (mood : jsstring) : jsstring :=
  trim (filter (fun c => is_word c || is_space c) mood).

Definition searchQuery (mood : jsstring) : jsstring :=
  match cleanMood mood with
  | [] => mood
  | c :: r => c :: r
  end.

(** [s.includes(sub)]. *)
Fixpoint startsWith (s sub : jsstring) {struct sub} : bool :=
  match sub, s with
  | [], _ => true
  | c :: sub', d :: s' => (c =? d)%N && startsWith s' sub'
  | _ :: _, [] => false
  end.

Fixpoint includes (s sub : jsstring) : bool :=
  startsWith s sub ||
  match s with
  | [] => false
  | _ :: r => includes r sub
  end.

(** [new Map(entries)]: a [Map] keeps its keys in insertion order, and
    setting a key it already has replaces the value in place. *)
Fixpoint Map_set {V : Type} (m : list (jsstring * V)) (k : jsstring) (v : V)
    : list (jsstring * V) :=
  match m with
  | [] => [(k, v)]
  | (k', v') :: r =>
      if jsstring_eqb k' k then (k', v) :: r else (k', v') :: Map_set r k v
  end.

Definition Map_of {V : Type} (entries : list (jsstring * V))
    : list (jsstring * V) :=
  fold_left (fun m e => Map_set m (fst e) (snd e)) entries [].

Definition Map_values {V : Type} (m : list (jsstring * V)) : list V :=
  map snd m.

(** "Remove duplicates and limit results". *)
Definition dedupe (allVideos : list YouTubeVideoData) : list YouTubeVideoData :=
  Map_values (Map_of (map (fun v => (videoId v, v)) allVideos)).

Definition uniqueVideos_of (allVideos : list YouTubeVideoData)
    : list YouTubeVideoData :=
  firstn 20 (dedupe allVideos).


(** What [ai.models.generateContent] does with a prompt: it rejects, or
    answers with a response whose [text] may be [undefined]. *)
Inductive OracleOutcome :=
| OracleRejects (f : Foreign)
| OracleResponds (text : option jsstring).

(** The world around one call of [fetchVideoSuggestion]: the catalog as it
    answers the i-th search of the loop, and the oracle (model
    [gemini-2.5-flash], JSON reply with the selection schema, temperature
    0.8). *)
Record World := {
  youtube : nat -> YouTube;
  gemini : jsstring -> OracleOutcome
}.

Definition nl : jsstring := [10%N].
Definition dq : jsstring := [34%N].

Fixpoint mapi {A B : Type} (f : A -> nat -> B) (l : list A) (index : nat)
    : list B :=
  match l with
  | [] => []
  | x :: r => f x index :: mapi f r (S index)
  end.

Definition videosList (uniqueVideos : list YouTubeVideoData) : jsstring :=
  join (nl ++ nl)
    (mapi (fun video index =>
             toString (N.of_nat (index + 1)) ++ lit ". Video ID: "
               ++ videoId video ++ nl
               ++ lit "   Title: " ++ title video ++ nl
               ++ lit "   Channel: " ++ channelName video ++ nl
               ++ lit "   Duration: " ++ durationFormatted video ++ nl
               ++ lit "   Description: " ++ firstn 200 (description video)
               ++ lit "...")
          uniqueVideos 0%nat).

Definition selectionPrompt (time : Z) (moods : list jsstring)
    (uniqueVideos : list YouTubeVideoData) : jsstring :=
  let timeDesc := getTimeDescription time in
  let moodDesc := join (lit ", ") moods in
  lit "You are " ++ dq ++ lit "Moment" ++ dq
    ++ lit ", an expert YouTube concierge. Your purpose is to select the perfect video for a user based on their moods and available time."
    ++ nl ++ nl
    ++ lit "User's request:" ++ nl
    ++ lit "- Time Available: A video that is " ++ timeDesc
    ++ lit ", with a duration as close to " ++ Z_toString time
    ++ lit " minutes as possible." ++ nl
    ++ lit "- Current Moods: " ++ moodDesc ++ nl ++ nl
    ++ lit "Here are " ++ toString (N.of_nat (List.length uniqueVideos))
    ++ lit " real YouTube videos that match the duration criteria. Select the ONE best video that:"
    ++ nl
    ++ lit "1. Best matches the user's current moods" ++ nl
    ++ lit "2. Is a " ++ dq ++ lit "hidden gem" ++ dq
    ++ lit " - high-quality and engaging, not just a generic viral hit" ++ nl
    ++ lit "3. The user likely hasn't seen before" ++ nl
    ++ lit "4. Has a duration closest to " ++ Z_toString time ++ lit " minutes"
    ++ nl ++ nl
    ++ lit "Available videos:" ++ nl
    ++ videosList uniqueVideos ++ nl ++ nl
    ++ lit "Select the best video by its videoId and provide tags and a compelling promotional summary.".

Definition watchUrl (id : jsstring) : jsstring :=
  lit "https://www.youtube.com/watch?v=" ++ id.

Definition genericSummary (time : Z) : jsstring :=
  lit "A perfect " ++ Z_toString time ++ lit "-minute video for your current mood.".

Definition msg_NoCandidates : jsstring :=
  lit "No videos found matching your preferences. Try adjusting your time or mood selection.".
Definition msg_InvalidJson : jsstring :=
  lit "Invalid response from Gemini. Please try again.".
Definition msg_NoSelection : jsstring :=
  lit "Gemini did not select a valid video. Please try again.".

Section Pipeline.

(** [process.env.YOUTUBE_API_KEY]. *)
Variable YOUTUBE_API_KEY : jsstring.

(** [JSON.parse]; [None] when it throws. *)
Variable JSON_parse : jsstring -> option JsonValue.

(** The messages of the engine's [TypeError] for [undefined.trim()], for
    reading a property of [null], for [undefined.match(...)] and for an
    object that has no primitive value. *)
Variable msg_trim_of_undefined : jsstring.
Variable msg_property_of_null : jsstring.
Variable msg_match_of_undefined : jsstring.
Variable msg_no_primitive : jsstring.

Definition searchQueries (moods : list jsstring) : list jsstring :=
  map searchQuery moods.

(** Step 2, the loop over the queries; [i] counts the searches made and
    [allVideos] is the array so far.  A search that fails adds nothing. *)
Fixpoint collectVideos (w : World) (durationRange : DurationBand) (i : nat)
    (queries : list jsstring) (allVideos : list YouTubeVideoData)
    : list YouTubeVideoData :=
  match queries with
  | [] => allVideos
  | query :: rest =>
      match searchVideos msg_match_of_undefined (youtube w i) query
              YOUTUBE_API_KEY (Some 15)
              (Some (band_min durationRange))
              (Some (band_max durationRange)) with
      | inr videos =>
          collectVideos w durationRange (S i) rest (allVideos ++ videos)
      | inl searchError =>
          collectVideos w durationRange (S i) rest allVideos
      end
  end.

Definition allVideos (w : World) (time : Z) (moods : list jsstring)
    : list YouTubeVideoData :=
  collectVideos w (getDurationRange time) 0 (searchQueries moods) [].

Definition uniqueVideos (w : World) (time : Z) (moods : list jsstring)
    : list YouTubeVideoData :=
  uniqueVideos_of (allVideos w time moods).

(** Steps 4 and 5: from the parsed reply to the suggestion.
    [fallbackVideo] is [uniqueVideos[0]].  On the fallback path the warning
    is built first, with [selectedVideoId] in a template literal. *)
Definition reconcile (time : Z) (fallbackVideo : YouTubeVideoData)
    (uniqueVideos : list YouTubeVideoData) (selectionData : JsonValue)
    : Result VideoSuggestion :=
  let selectedVideoId := get_prop selectionData (lit "selectedVideoId") in
  let tags := get_prop selectionData (lit "tags") in
  let promotionalSummary :=
    get_prop selectionData (lit "promotionalSummary") in
  if negb (truthy selectedVideoId) then
    inl (ErrorObj OracleResponseInvalid msg_NoSelection)
  else
    match find (fun v => strict_eq (videoId v) selectedVideoId)
            uniqueVideos with
    | None =>
        if match selectedVideoId with
           | Some v => negb (stringifiable v)
           | None => false
           end
        then inl (ErrorObj External msg_no_primitive)
        else
        inr {| vs_title := title fallbackVideo;
               vs_youtubeUrl := watchUrl (videoId fallbackVideo);
               vs_thumbnailUrl := thumbnailUrl fallbackVideo;
               vs_channelName := channelName fallbackVideo;
               vs_duration := durationFormatted fallbackVideo;
               vs_tags := if truthy tags
                          then match tags with Some t => t | None => JArray [] end
                          else JArray [];
               vs_promotionalSummary :=
                 if truthy promotionalSummary then promotionalSummary
                 else Some (JString (genericSummary time)) |}
    | Some selectedVideo =>
        inr {| vs_title := title selectedVideo;
               vs_youtubeUrl := watchUrl (videoId selectedVideo);
               vs_thumbnailUrl := thumbnailUrl selectedVideo;
               vs_channelName := channelName selectedVideo;
               vs_duration := durationFormatted selectedVideo;
               vs_tags := if truthy tags
                          then match tags with Some t => t | None => JArray [] end
                          else JArray [];
               vs_promotionalSummary := promotionalSummary |}
    end.

(** Reading [selectionData.selectedVideoId] throws when the reply parsed
    to [null]. *)
Definition read_selection (time : Z) (fallbackVideo : YouTubeVideoData)
    (uniqueVideos : list YouTubeVideoData) (selectionData : JsonValue)
    : Result VideoSuggestion :=
  match selectionData with
  | JNull => inl (ErrorObj External msg_property_of_null)
  | _ => reconcile time fallbackVideo uniqueVideos selectionData
  end.

(** Step 3 onwards: the oracle is asked, its reply read and parsed. *)
Definition select (w : World) (time : Z) (moods : list jsstring)
    (fallbackVideo : YouTubeVideoData)
    (uniqueVideos : list YouTubeVideoData) : Result VideoSuggestion :=
  match gemini w (selectionPrompt time moods uniqueVideos) with
  | OracleRejects f => inl (thrown_of f)
  | OracleResponds None => inl (ErrorObj External msg_trim_of_undefined)
  | OracleResponds (Some text) =>
      let jsonText := trim text in
      match JSON_parse jsonText with
      | None => inl (ErrorObj OracleResponseInvalid msg_InvalidJson)
      | Some selectionData =>
          read_selection time fallbackVideo uniqueVideos selectionData
      end
  end.

(** The body of the [try] of [fetchVideoSuggestion]. *)
Definition fetchVideoSuggestion_try (w : World) (time : Z)
    (moods : list jsstring) : Result VideoSuggestion :=
  match uniqueVideos w time moods with
  | [] => inl (ErrorObj NoCandidates msg_NoCandidates)
  | fallbackVideo :: others =>
      select w time moods fallbackVideo (fallbackVideo :: others)
  end.

(** The [catch] of [fetchVideoSuggestion]: it reads the message only. *)
Definition relabel (error : Thrown) : Thrown :=
  match error with
  | ErrorObj kind message =>
      if includes message (lit "API_KEY") || includes message (lit "apiKey")
      then ErrorObj ApiKeyError
             (lit "API key error. Please check your .env.local file and ensure both GEMINI_API_KEY and YOUTUBE_API_KEY are set correctly.")
      else if includes message (lit "quota") || includes message (lit "Quota")
      then ErrorObj QuotaExceeded
             (lit "API quota exceeded. Please check your API usage limits.")
      else if includes message (lit "network") || includes message (lit "fetch")
      then ErrorObj NetworkError
             (lit "Network error. Please check your internet connection and try again.")
      else ErrorObj kind message
  | NonError =>
      ErrorObj UnknownFailure
        (lit "Failed to get a suggestion. Please check the browser console for details and try again.")
  end.

Definition fetchVideoSuggestion (w : World) (time : Z)
    (moods : list jsstring) : Result VideoSuggestion :=
  match fetchVideoSuggestion_try w time moods with
  | inl error => inl (relabel error)
  | inr suggestion => inr suggestion
  end.

End Pipeline.


(** ** Definitions the statements use *)

(** The integers that binary64 holds exactly, up to [Number.MAX_SAFE_INTEGER]. *)
Definition MAX_SAFE_INTEGER : N := 9007199254740991.

Definition safe (n : option N) : Prop :=
  match n with
  | Some k => (k <= MAX_SAFE_INTEGER)%N
  | None => True
  end.

Definition or_zero (n : option N) : N :=
  match n with
  | Some k => k
  | None => 0%N
  end.

(** An ISO-8601 duration [PT#H#M#S], each component present or not. *)
Definition iso_component (n : option N) (unit : ascii) : jsstring :=
  match n with
  | Some k => toString k ++ [ch unit]
  | None => []
  end.

Definition iso_duration (h m s : option N) : jsstring :=
  lit "PT" ++ iso_component h "H" ++ iso_component m "M" ++ iso_component s "S".

Definition two_digits (n : N) : jsstring := padStart 2 (ch "0") (toString n).

(** [H:MM:SS] and [M:SS]. *)
Definition format_H_MM_SS (h m s : N) : jsstring :=
  toString h ++ lit ":" ++ two_digits m ++ lit ":" ++ two_digits s.

Definition format_M_SS (m s : N) : jsstring :=
  toString m ++ lit ":" ++ two_digits s.

(** [getDurationRange] on [t], [t+1], ..., [t+n-1] against the formula. *)
Fixpoint range_agrees (n : nat) (t : Z) : bool :=
  match n with
  | O => true
  | S n' =>
      band_eqb (getDurationRange t) (getDurationRange_spec t)
      && range_agrees n' (t + 1)
  end.

(** The seconds of a duration string lie between the bounds that are
    given. *)
Definition in_range (lo hi : option Z) (iso : jsstring) : bool :=
  match durationMatch iso with
  | None => false
  | Some c =>
      match lo with Some l => l <=? totalSeconds c | None => true end
      && match hi with Some h => totalSeconds c <=? h | None => true end
  end.

(** What every entry that [searchVideos] returns satisfies. *)
Definition filtered (lo hi : option Z) (v : YouTubeVideoData) : Prop :=
  in_range lo hi (duration v) = true
  /\ durationFormatted v = formatDuration (duration v).

(** An entry of [detailsData.items] with a snippet and a duration. *)
Definition item (id ttl iso : string) : VideoItem :=
  {| vi_id := lit id;
     vi_snippet :=
       Some {| sn_title := lit ttl;
               sn_channelTitle := lit "Channel";
               sn_channelId := lit "UC0";
               sn_description := Some (lit "About " ++ lit ttl);
               sn_publishedAt := lit "2024-01-01T00:00:00Z";
               sn_thumbnails :=
                 {| th_high := Some (lit "https://i.ytimg.com/vi/" ++ lit id
                                       ++ lit "/hqdefault.jpg");
                    th_medium := None;
                    th_default := None |} |};
     vi_contentDetails := Some (Some (lit iso));
     vi_viewCount := Some (lit "1000") |}.

(** A catalog that answers every search with the same hits. *)
Definition catalog (items : list VideoItem) : YouTube :=
  {| yt_search := fun _ => Ok (Some (map (fun v => Some (vi_id v)) items));
     yt_videos := fun _ _ => Ok (Some items) |}.

(** [v.videoId === id]. *)
Definition has_id (id : jsstring) (v : YouTubeVideoData) : bool :=
  jsstring_eqb (videoId v) id.

Definition known (id : jsstring) (seen : list jsstring) : bool :=
  existsb (fun k => jsstring_eqb k id) seen.

(** Deduplication as the specification words it: the first occurrence of
    each identity is kept, with its data.  [seen] holds the identities met
    so far. *)
Fixpoint keep_first (seen : list jsstring) (l : list YouTubeVideoData)
    : list YouTubeVideoData :=
  match l with
  | [] => []
  | v :: r =>
      if known (videoId v) seen then keep_first seen r
      else v :: keep_first (seen ++ [videoId v]) r
  end.

(** Every value of the map is stored under its own identity. *)
Definition keyed (m : list (jsstring * YouTubeVideoData)) : Prop :=
  Forall (fun e => fst e = videoId (snd e)) m.

Definition entries (l : list YouTubeVideoData)
    : list (jsstring * YouTubeVideoData) :=
  map (fun v => (videoId v, v)) l.

(** A catalog entry, for the examples. *)
Definition video (id ttl iso : string) : YouTubeVideoData :=
  {| videoId := lit id;
     title := lit ttl;
     channelName := lit "Channel";
     channelId := lit "UC0";
     duration := lit iso;
     durationFormatted := formatDuration (lit iso);
     thumbnailUrl := lit "https://i.ytimg.com/vi/" ++ lit id
                       ++ lit "/hqdefault.jpg";
     publishedAt := lit "2024-01-01T00:00:00Z";
     description := lit "About " ++ lit ttl;
     viewCount := Some (Int 1000) |}.

(** The [n]-th of a row of catalog entries with identities of their own,
    for the examples. *)
Definition numbered (n : nat) (ttl : string) : YouTubeVideoData :=
  {| videoId := lit "video-" ++ toString (N.of_nat n);
     title := lit ttl;
     channelName := lit "Channel";
     channelId := lit "UC0";
     duration := lit "PT15M";
     durationFormatted := formatDuration (lit "PT15M");
     thumbnailUrl := [];
     publishedAt := lit "2024-01-01T00:00:00Z";
     description := [];
     viewCount := None |}.

(** What a search adds to [allVideos]. *)
Definition found (r : Result (list YouTubeVideoData)) : list YouTubeVideoData :=
  match r with
  | inr videos => videos
  | inl _ => []
  end.

(** A [JSON.parse] known by a table of texts and the values they stand
    for; it throws on any other text. *)
Definition parse_known (table : list (jsstring * JsonValue))
    (text : jsstring) : option JsonValue :=
  match find (fun e => jsstring_eqb (fst e) text) table with
  | Some e => Some (snd e)
  | None => None
  end.

Definition quoted (s : string) : jsstring := dq ++ lit s ++ dq.

(** The engine's messages (V8). *)
Definition v8_trim_of_undefined : jsstring :=
  lit "Cannot read properties of undefined (reading 'trim')".
Definition v8_property_of_null : jsstring :=
  lit "Cannot read properties of null (reading 'selectedVideoId')".

(** A world whose catalog answers every search with [items] and whose
    oracle answers every prompt with [reply]. *)
Definition world (items : list VideoItem) (reply : jsstring) : World :=
  {| youtube := fun _ => catalog items;
     gemini := fun _ => OracleResponds (Some reply) |}.

(** The reply [{"selectedVideoId":id}], and with
    [,"tags":["Calm","Nature","Music"]] added. *)
Definition reply_id (id : string) : jsstring :=
  lit "{" ++ quoted "selectedVideoId" ++ lit ":" ++ quoted id ++ lit "}".

Definition reply_id_value (id : string) : JsonValue :=
  JObject [(lit "selectedVideoId", JString (lit id))].

Definition three_tags : JsonValue :=
  JArray [JString (lit "Calm"); JString (lit "Nature"); JString (lit "Music")].

Definition reply_id_tags (id : string) : jsstring :=
  lit "{" ++ quoted "selectedVideoId" ++ lit ":" ++ quoted id ++ lit ","
    ++ quoted "tags" ++ lit ":[" ++ quoted "Calm" ++ lit "," ++ quoted "Nature"
    ++ lit "," ++ quoted "Music" ++ lit "]}".

Definition reply_id_tags_value (id : string) : JsonValue :=
  JObject [(lit "selectedVideoId", JString (lit id)); (lit "tags", three_tags)].

(** The default mood of the application, [Curious] and the thinking-face
    emoji (a surrogate pair). *)
Definition mood_curious : jsstring := lit "Curious " ++ [55358; 56596]%N.

(** The query as the specification words it: the label without its
    characters that are neither alphanumeric nor white space, or the label
    itself when nothing is left. *)
Definition is_alnum (c : N) : bool :=
  (((65 <=? c) && (c <=? 90)) || ((97 <=? c) && (c <=? 122)) || is_digit c)%N.

Definition query_spec (label : jsstring) : jsstring :=
  match filter (fun c => is_alnum c || is_space c) label with
  | [] => label
  | c :: r => c :: r
  end.

(** A catalog whose search endpoint refuses every request with 403. *)
Definition catalog_refusing : YouTube :=
  {| yt_search := fun _ =>
       NotOk 403 (lit "Forbidden")
         (Some {| ed_code := Some 403;
                  ed_message := Some (lit "quotaExceeded") |});
     yt_videos := fun _ _ => Ok None |}.

(** ** The rest of the catalog client ([youtubeService.ts]) *)

(** The entry that the loop of [searchVideos] adds for an item, if it adds
    one. *)
Definition accepted (lo hi : option Z) (video : VideoItem)
    : list YouTubeVideoData :=
  match vi_snippet video, vi_contentDetails video with
  | Some snippet, Some (Some duration) =>
      if in_range lo hi duration then [videoData video snippet duration]
      else []
  | _, _ => []
  end.

(** The entry made of an item that has a snippet and content details
    with a duration. *)
Definition entry (video : VideoItem) : list YouTubeVideoData :=
  match vi_snippet video, vi_contentDetails video with
  | Some snippet, Some (Some duration) => [videoData video snippet duration]
  | _, _ => []
  end.

(** [item.id.videoId] values that pass [filter(Boolean)]. *)
Definition usable_ids (items : list SearchItem) : list jsstring :=
  flat_map (fun item : SearchItem =>
              match item with
              | Some (c :: r) => [c :: r]
              | _ => []
              end) items.

(** [/^[a-zA-Z0-9_-]{11}$/.test(videoId)]. *)
Definition is_id_char (c : N) : bool :=
  (((97 <=? c) && (c <=? 122)) || ((65 <=? c) && (c <=? 90))
   || ((48 <=? c) && (c <=? 57)) || (c =? 95) || (c =? 45))%N.

Definition valid_video_id (videoId : jsstring) : bool :=
  (List.length videoId =? 11)%nat && forallb is_id_char videoId.

(** What [errorData] is for a response outside 2xx. *)
Definition errorData_of (status : Z) (statusText : jsstring)
    (body : option ErrorData) : ErrorData :=
  match body with
  | Some d => d
  | None =>
      {| ed_code := Some status;
         ed_message := Some (lit "HTTP " ++ toString (Z.to_N status)
                               ++ lit ": " ++ statusText) |}
  end.

Definition code_is (d : ErrorData) (n : Z) : bool :=
  match ed_code d with
  | Some c => c =? n
  | None => false
  end.

(** [validateAndFetchVideoData].  The request is for [id=videoId] on
    [/youtube/v3/videos]; the [catch] passes [Error] objects on and replaces
    anything else.  [msg_match_of_undefined] is the message of the engine's
    [TypeError] when [formatDuration] is given [undefined]. *)
Definition validateAndFetchVideoData (msg_match_of_undefined : jsstring)
    (yt : YouTube) (videoId apiKey : jsstring) : Result YouTubeVideoData :=
  if negb (valid_video_id videoId) then
    inl (ErrorObj InvalidIdentity
           (lit "Invalid video ID format: " ++ videoId
              ++ lit ". YouTube video IDs must be exactly 11 characters."))
  else
    match yt_videos yt videoId apiKey with
    | Rejected (ForeignError message) => inl (ErrorObj External message)
    | Rejected ForeignValue =>
        inl (ErrorObj CatalogRequestError
               (lit "Failed to fetch video data from YouTube API"))
    | NotOk status statusText body =>
        let errorData := errorData_of status statusText body in
        if code_is errorData 403 then
          inl (ErrorObj CatalogUnavailable
                 (lit "YouTube API quota exceeded or API key invalid. Please check your API key and quota."))
        else if code_is errorData 404 then
          inl (ErrorObj NotFound
                 (lit "Video not found: " ++ videoId
                    ++ lit ". The video may have been deleted or made private."))
        else
          inl (ErrorObj CatalogRequestError
                 (lit "YouTube API error: "
                    ++ str_or (ed_message errorData) statusText))
    | Ok None | Ok (Some []) =>
        inl (ErrorObj NotFound
               (lit "Video not found: " ++ videoId
                  ++ lit ". The video may have been deleted, made private, or the ID is incorrect."))
    | Ok (Some (video :: _)) =>
        match vi_snippet video, vi_contentDetails video with
        | Some snippet, Some (Some duration) =>
            inr (videoData video snippet duration)
        | Some snippet, Some None =>
            inl (ErrorObj External msg_match_of_undefined)
        | _, _ =>
            inl (ErrorObj CatalogRequestError
                   (lit "Invalid video data structure from YouTube API"))
        end
    end.

(** [validateVideoIds]. *)
Definition batchSize : nat := 50.

(** [l.slice(i, j)] for [0 <= i <= j]. *)
Definition slice {A : Type} (i j : nat) (l : list A) : list A :=
  firstn (j - i) (skipn i l).

(** The loop over [data.items] of one batch.  For an item that has
    [contentDetails] without a [duration], [formatDuration] throws before
    the [push]; the [catch] of the batch logs it, and the items after it are
    not looked at. *)
Fixpoint batchItems (items : list VideoItem) : list YouTubeVideoData :=
  match items with
  | [] => []
  | video :: rest =>
      match vi_snippet video, vi_contentDetails video with
      | Some snippet, Some (Some duration) =>
          videoData video snippet duration :: batchItems rest
      | Some snippet, Some None => []
      | _, _ => batchItems rest
      end
  end.

(** What one batch adds to [results]: nothing when the request rejects or is
    answered outside 2xx or without [items]. *)
Definition batchResults (response : Http (option (list VideoItem)))
    : list YouTubeVideoData :=
  match response with
  | Ok (Some items) => batchItems items
  | _ => []
  end.

(** The loop [for (let i = 0; i < videoIds.length; i += batchSize)], from
    [i] on; [fuel] bounds the iterations that are left.  The catalog answers
    a request by what it asks for. *)
Fixpoint validateVideoIds_loop (fuel : nat) (yt : YouTube)
    (videoIds : list jsstring) (apiKey : jsstring) (i : nat)
    (results : list YouTubeVideoData) : list YouTubeVideoData :=
  match fuel with
  | O => results
  | S fuel' =>
      if (i <? List.length videoIds)%nat then
        let batch := slice i (i + batchSize) videoIds in
        validateVideoIds_loop fuel' yt videoIds apiKey (i + batchSize)
          (results ++ batchResults (yt_videos yt (join (lit ",") batch) apiKey))
      else results
  end.

Definition validateVideoIds (yt : YouTube) (videoIds : list jsstring)
    (apiKey : jsstring) : list YouTubeVideoData :=
  match videoIds with
  | [] => []
  | _ => validateVideoIds_loop (List.length videoIds) yt videoIds apiKey 0 []
  end.

(** The batches of the loop: [videoIds.slice(i, i + 50)] for [i] = 0, 50,
    ... below the length. *)
Fixpoint batches_from (fuel : nat) (videoIds : list jsstring) (i : nat)
    : list (list jsstring) :=
  match fuel with
  | O => []
  | S fuel' =>
      if (i <? List.length videoIds)%nat then
        slice i (i + batchSize) videoIds
          :: batches_from fuel' videoIds (i + batchSize)
      else []
  end.

Definition batches (videoIds : list jsstring) : list (list jsstring) :=
  batches_from (List.length videoIds) videoIds 0.

(** ** The application ([App.tsx], [MoodSelector.tsx]) *)

(** [selectedMoods.includes(mood)]. *)
Definition array_includes (l : list jsstring) (x : jsstring) : bool :=
  existsb (fun m => jsstring_eqb m x) l.

(** [handleMoodClick]: the new selection. *)
Definition handleMoodClick (selectedMoods : list jsstring) (mood : jsstring)
    : list jsstring :=
  if array_includes selectedMoods mood
  then filter (fun m => negb (jsstring_eqb m mood)) selectedMoods
  else selectedMoods ++ [mood].

(** The state of [App]. *)
Record AppState := {
  selectedTime : Z;
  selectedMoods : list jsstring;
  suggestion : option VideoSuggestion;
  isLoading : bool;
  error : option jsstring
}.

(** One run of [handleFindMoment] from a state, to its last [setState],
    with [fetch] standing for [fetchVideoSuggestion] in the world of the
    run. *)
Definition handleFindMoment
    (fetch : Z -> list jsstring -> Result VideoSuggestion) (s : AppState)
    : AppState :=
  match selectedMoods s with
  | [] =>
      {| selectedTime := selectedTime s;
         selectedMoods := selectedMoods s;
         suggestion := suggestion s;
         isLoading := isLoading s;
         error := Some (lit "Please select at least one mood.") |}
  | _ =>
      match fetch (selectedTime s) (selectedMoods s) with
      | inr result =>
          {| selectedTime := selectedTime s;
             selectedMoods := selectedMoods s;
             suggestion := Some result;
             isLoading := false;
             error := None |}
      | inl err =>
          {| selectedTime := selectedTime s;
             selectedMoods := selectedMoods s;
             suggestion := None;
             isLoading := false;
             error := Some match err with
                           | ErrorObj _ message => message
                           | NonError => lit "An unknown error occurred."
                           end |}
      end
  end.

(** What [renderContent] shows. *)
Inductive View :=
| LoadingView
| ErrorView (message : jsstring)
| CardView (s : VideoSuggestion)
| FormView.

Definition renderContent (s : AppState) : View :=
  if isLoading s then LoadingView
  else match error s with
       | Some (c :: r) => ErrorView (c :: r)
       | _ => match suggestion s with
              | Some result => CardView result
              | None => FormView
              end
       end.

(** ** More definitions the statements use *)

(** The seconds that [PT#H#M#S] stands for. *)
Definition iso_seconds (h m s : option N) : N :=
  (3600 * or_zero h + 60 * or_zero m + or_zero s)%N.

(** A duration string, where it is a well-formed [PT#H#M#S] whose seconds
    binary64 holds exactly, stands for seconds between the bounds that are
    given. *)
Definition seconds_within (lo hi : option Z) (iso : jsstring) : Prop :=
  forall h m s,
    iso = iso_duration h m s ->
    (iso_seconds h m s <= MAX_SAFE_INTEGER)%N ->
    match lo with Some l => l <= Z.of_N (iso_seconds h m s) | None => True end
    /\ match hi with Some u => Z.of_N (iso_seconds h m s) <= u | None => True end.

(** The numbers read from an item are integers that binary64 holds exactly:
    the seconds of its duration (and so each component), and its view
    count.  On such items [parseInt] and the arithmetic of [searchVideos]
    round nothing. *)
Definition exact_duration (iso : jsstring) : Prop :=
  match durationMatch iso with
  | Some c => totalSeconds c <= Z.of_N MAX_SAFE_INTEGER
  | None => True
  end.

Definition exact_count (count : option jsstring) : Prop :=
  match count with
  | Some s =>
      match parseInt10 s with
      | Int z => Z.abs z <= Z.of_N MAX_SAFE_INTEGER
      | NaN => True
      end
  | None => True
  end.

Definition exact_item (video : VideoItem) : Prop :=
  match vi_contentDetails video with
  | Some (Some iso) => exact_duration iso
  | _ => True
  end
  /\ exact_count (vi_viewCount video).

Definition exact_catalog (yt : YouTube) (apiKey : jsstring) : Prop :=
  forall ids items,
    yt_videos yt ids apiKey = Ok (Some items) -> Forall exact_item items.

(** An item with a snippet and [contentDetails], but no [duration] in
    it. *)
Definition lacks_duration (video : VideoItem) : bool :=
  match vi_snippet video, vi_contentDetails video with
  | Some _, Some None => true
  | _, _ => false
  end.

(** The catalog answers a search request within 2xx only with as many hits
    as the request asks for, at most (so not at all when it asks for less
    than none). *)
Definition honours_count (yt : YouTube) (request : SearchRequest) : Prop :=
  forall body,
    yt_search yt request = Ok body ->
    Z.of_nat (List.length (match body with Some hits => hits | None => [] end))
    <= sr_maxResults request.

(** A catalog that gives no more hits than it is asked for. *)
Definition catalog_counting (items : list VideoItem) : YouTube :=
  {| yt_search := fun request =>
       Ok (Some (firstn (Z.to_nat (sr_maxResults request))
                   (map (fun v => Some (vi_id v)) items)));
     yt_videos := fun _ _ => Ok (Some items) |}.

(** An item with a snippet and [contentDetails] without [duration]. *)
Definition item_without_duration (id ttl : string) : VideoItem :=
  {| vi_id := vi_id (item id ttl "PT0S");
     vi_snippet := vi_snippet (item id ttl "PT0S");
     vi_contentDetails := Some None;
     vi_viewCount := None |}.

(** The engine's messages (V8), continued. *)
Definition v8_match_of_undefined : jsstring :=
  lit "Cannot read properties of undefined (reading 'match')".
Definition v8_no_primitive : jsstring :=
  lit "Cannot convert object to primitive value".




(** * Properties *)

(** ** Duration classifier *)

Lemma band_eqb_eq (a b : DurationBand) : band_eqb a b = true -> a = b.
Proof.
  destruct a as [amin amax], b as [bmin bmax]; unfold band_eqb; simpl.
  intros H. apply andb_true_iff in H. destruct H as [Hmin Hmax].
  apply Z.eqb_eq in Hmin. apply Z.eqb_eq in Hmax. subst. reflexivity.
Qed.

Lemma range_agrees_sound (n : nat) :
  forall t0, range_agrees n t0 = true ->
  forall t, t0 <= t < t0 + Z.of_nat n ->
  getDurationRange t = getDurationRange_spec t.
Proof.
  induction n as [|n IH]; intros t0 Hall t Ht.
  - simpl in Ht. lia.
  - cbn [range_agrees] in Hall. apply andb_true_iff in Hall.
    destruct Hall as [Hhere Hrest].
    destruct (Z.eq_dec t t0) as [->|Hne].
    + apply band_eqb_eq. exact Hhere.
    + apply (IH (t0 + 1) Hrest). lia.
Qed.

Lemma range_agrees_day : range_agrees 1441 0 = true.
Proof. vm_compute. reflexivity. Qed.

Lemma getDurationRange_day (t : Z) :
  0 <= t <= 1440 -> getDurationRange t = getDurationRange_spec t.
Proof.
  intros Ht. apply (range_agrees_sound 1441 0 range_agrees_day). lia.
Qed.

(** The literal 0.8 is the correctly rounded quotient 4/5. *)
Lemma lit_0_8_is_four_fifths :
  Number.div (Number.of_Z 4) (Number.of_Z 5) = Number.lit_0_8.
Proof. vm_compute. reflexivity. Qed.

(** C3, as the code has it: for every whole number of minutes from 0 to 1440
    (the accepted targets 5..120 among them), [getDurationRange] returns
    [{min = max(60, floor(target*0.8*60)), max = floor(target*2*60)}];
    target 15 gives [{720, 1800}] and target 5 gives [{240, 600}]. *)
Theorem getDurationRange_formula :
  (forall target, 0 <= target <= 1440 ->
     getDurationRange target =
     {| band_min := Z.max 60 ((target * 8 * 60) / 10);
        band_max := target * 2 * 60 |})
  /\ getDurationRange 15 = {| band_min := 720; band_max := 1800 |}
  /\ getDurationRange 5 = {| band_min := 240; band_max := 600 |}.
Proof.
  split; [|split].
  - intros target Ht. apply getDurationRange_day. exact Ht.
  - vm_compute. reflexivity.
  - vm_compute. reflexivity.
Qed.

Lemma getDurationRange_formula_witness :
  0 <= 15 <= 1440 /\
  getDurationRange 15 =
  {| band_min := Z.max 60 ((15 * 8 * 60) / 10); band_max := 15 * 2 * 60 |}.
Proof.
  split; [lia | apply (proj1 getDurationRange_formula 15); lia].
Defined.

(** C3 as the specification words it fails at target 5: the band there is
    not [{60, 600}], in the code and in the formula alike. *)
Lemma getDurationRange_5_not_clamped :
  getDurationRange 5 <> {| band_min := 60; band_max := 600 |}
  /\ getDurationRange_spec 5 <> {| band_min := 60; band_max := 600 |}.
Proof. split; vm_compute; intros H; discriminate H. Qed.


(** ** Decimal numerals *)

Lemma digits_of_uint_digits (u : Decimal.uint) :
  forallb is_digit (digits_of_uint u) = true.
Proof. induction u; simpl; auto. Qed.

Lemma uint_of_digits_of_uint (u : Decimal.uint) :
  uint_of_digits (digits_of_uint u) = u.
Proof. induction u; simpl; congruence. Qed.

Lemma parseInt_toString (n : N) : parseInt_digits (toString n) = n.
Proof.
  unfold parseInt_digits, toString.
  rewrite uint_of_digits_of_uint. apply DecimalN.Unsigned.of_to.
Qed.

Lemma toString_digits (n : N) : forallb is_digit (toString n) = true.
Proof. apply digits_of_uint_digits. Qed.

Lemma toString_nonempty (n : N) : exists d ds, toString n = d :: ds.
Proof.
  unfold toString.
  assert (Hnil : N.to_uint n <> Decimal.Nil).
  { destruct n as [|p]; simpl.
    - discriminate.
    - apply DecimalPos.Unsigned.to_uint_nonnil. }
  destruct (N.to_uint n); simpl; try (eexists; eexists; reflexivity).
  contradiction Hnil. reflexivity.
Qed.

(** A one-digit numeral stands for a number below ten. *)
Lemma toString_long (n : N) : (10 <= n)%N -> (2 <= List.length (toString n))%nat.
Proof.
  intros Hn.
  destruct (toString_nonempty n) as (d & ds & Hs).
  destruct ds as [|d' ds'].
  - exfalso.
    pose proof (parseInt_toString n) as Hround.
    pose proof (toString_digits n) as Hdig.
    rewrite Hs in Hround, Hdig. simpl in Hdig.
    apply andb_true_iff in Hdig. destruct Hdig as [Hd _].
    unfold is_digit in Hd. apply andb_true_iff in Hd.
    destruct Hd as [Hlo Hhi].
    apply N.leb_le in Hlo. apply N.leb_le in Hhi.
    assert (Hcases : (d = 48 \/ d = 49 \/ d = 50 \/ d = 51 \/ d = 52
                      \/ d = 53 \/ d = 54 \/ d = 55 \/ d = 56 \/ d = 57)%N)
      by lia.
    repeat (destruct Hcases as [->|Hcases];
            [vm_compute in Hround; subst n; vm_compute in Hn;
             apply Hn; reflexivity|]).
    subst d. vm_compute in Hround. subst n. vm_compute in Hn.
    apply Hn; reflexivity.
  - rewrite Hs. simpl. lia.
Qed.

Lemma two_digits_long (n : N) : (10 <= n)%N -> two_digits n = toString n.
Proof.
  intros Hn. unfold two_digits, padStart.
  pose proof (toString_long n Hn) as Hlen.
  replace (2 - List.length (toString n))%nat with 0%nat by lia.
  reflexivity.
Qed.

(** ** The duration pattern *)

Lemma span_digits_app (ds : jsstring) (c : N) (rest : jsstring) :
  forallb is_digit ds = true -> is_digit c = false ->
  span_digits (ds ++ c :: rest) = (ds, c :: rest).
Proof.
  intros Hds Hc. induction ds as [|d ds IH]; simpl.
  - rewrite Hc. reflexivity.
  - simpl in Hds. apply andb_true_iff in Hds. destruct Hds as [Hd Hds].
    rewrite Hd, (IH Hds). reflexivity.
Qed.

Lemma span_digits_nondigit (c : N) (rest : jsstring) :
  is_digit c = false -> span_digits (c :: rest) = ([], c :: rest).
Proof. intros Hc. simpl. rewrite Hc. reflexivity. Qed.

Lemma component_captures (n : N) (unit : N) (rest : jsstring) :
  is_digit unit = false ->
  component unit (toString n ++ unit :: rest) = (Some (toString n), rest).
Proof.
  intros Hu. unfold component.
  rewrite (span_digits_app _ _ _ (toString_digits n) Hu).
  destruct (toString_nonempty n) as (d & ds & ->).
  rewrite N.eqb_refl. reflexivity.
Qed.

Lemma component_skips_other (n : N) (unit other : N) (rest : jsstring) :
  is_digit other = false -> other <> unit ->
  component unit (toString n ++ other :: rest)
  = (None, toString n ++ other :: rest).
Proof.
  intros Ho Hne. unfold component.
  rewrite (span_digits_app _ _ _ (toString_digits n) Ho).
  destruct (toString_nonempty n) as (d & ds & ->).
  apply N.eqb_neq in Hne. rewrite Hne. reflexivity.
Qed.

Lemma component_skips_nondigit (unit c : N) (rest : jsstring) :
  is_digit c = false -> component unit (c :: rest) = (None, c :: rest).
Proof.
  intros Hc. unfold component. rewrite (span_digits_nondigit _ _ Hc).
  reflexivity.
Qed.

Lemma component_skips_end (unit : N) : component unit [] = (None, []).
Proof. reflexivity. Qed.

Lemma durationMatch_PT (r : jsstring) :
  durationMatch (lit "PT" ++ r) =
  (let (h, r1) := component (ch "H") r in
   let (m, r2) := component (ch "M") r1 in
   let (sec, _) := component (ch "S") r2 in
   Some (h, m, sec)).
Proof.
  change (lit "PT" ++ r) with (80 :: 84 :: r)%N.
  cbn [durationMatch match_here]. change (ch "P") with 80%N.
  change (ch "T") with 84%N. rewrite !N.eqb_refl. cbn [andb].
  destruct (component (ch "H") r) as [h r1].
  destruct (component (ch "M") r1) as [m r2].
  destruct (component (ch "S") r2) as [sec r3]. reflexivity.
Qed.

#[local] Ltac step_component :=
  first
    [ rewrite component_captures by reflexivity
    | rewrite component_skips_other by (first [reflexivity | discriminate])
    | rewrite component_skips_end
    | rewrite component_skips_nondigit by reflexivity ].

(** What the pattern captures on a well-formed duration. *)
Lemma durationMatch_iso (h m s : option N) :
  durationMatch (iso_duration h m s)
  = Some (option_map toString h, option_map toString m, option_map toString s).
Proof.
  unfold iso_duration. rewrite durationMatch_PT.
  destruct h as [h|], m as [m|], s as [s|];
    unfold iso_component; cbn [app option_map];
    rewrite <- ?List.app_assoc; cbn [app];
    change (ch "H") with 72%N; change (ch "M") with 77%N;
    change (ch "S") with 83%N;
    repeat step_component; reflexivity.
Qed.

Lemma capture_or_toString (n : option N) :
  parseInt_digits (capture_or (option_map toString n) (lit "0")) = or_zero n.
Proof.
  destruct n as [k|]; simpl.
  - destruct (toString_nonempty k) as (d & ds & Hs).
    rewrite Hs. cbn [capture_or]. rewrite <- Hs. apply parseInt_toString.
  - reflexivity.
Qed.

(** [formatDuration] on a well-formed duration: the components as they are
    written, with no carry between them. *)
Lemma formatDuration_components (h m s : option N) :
  formatDuration (iso_duration h m s) =
  if (0 <? or_zero h)%N
  then format_H_MM_SS (or_zero h) (or_zero m) (or_zero s)
  else format_M_SS (or_zero m) (or_zero s).
Proof.
  unfold formatDuration. rewrite durationMatch_iso.
  rewrite !capture_or_toString. reflexivity.
Qed.

Lemma startsWith_PT_match_here (s : jsstring) :
  startsWith s (lit "PT") = false -> match_here s = None.
Proof.
  destruct s as [|p [|t r]]; try reflexivity.
  intros H. cbn [match_here].
  change (ch "P") with 80%N. change (ch "T") with 84%N.
  destruct (N.eqb_spec p 80) as [->|Hp]; [|reflexivity].
  destruct (N.eqb_spec t 84) as [->|Ht]; [|reflexivity].
  vm_compute in H. discriminate H.
Qed.

Lemma durationMatch_without_PT (s : jsstring) :
  includes s (lit "PT") = false -> durationMatch s = None.
Proof.
  induction s as [|c r IH]; intros H.
  - reflexivity.
  - cbn [includes] in H. apply orb_false_iff in H. destruct H as [Hhere Hrest].
    cbn [durationMatch]. rewrite (startsWith_PT_match_here _ Hhere).
    apply IH. exact Hrest.
Qed.

Lemma durationMatch_skips_prefix (pre post : jsstring) :
  includes pre (lit "PT") = false ->
  durationMatch (pre ++ lit "PT" ++ post) = durationMatch (lit "PT" ++ post).
Proof.
  induction pre as [|c r IH]; intros H.
  - reflexivity.
  - cbn [includes] in H. apply orb_false_iff in H. destruct H as [Hhere Hrest].
    rewrite <- (IH Hrest). cbn [app durationMatch].
    assert (Hmiss : match_here (c :: r ++ lit "PT" ++ post) = None).
    { apply startsWith_PT_match_here.
      change (lit "PT") with [80; 84]%N in *.
      destruct r as [|t r']; cbn [app startsWith] in *.
      - destruct (80 =? c)%N; [reflexivity | reflexivity].
      - exact Hhere. }
    rewrite Hmiss. reflexivity.
Qed.

Lemma durationMatch_finds_PT (pre post : jsstring) :
  durationMatch (pre ++ lit "PT" ++ post) <> None.
Proof.
  induction pre as [|c r IH].
  - cbn [app]. rewrite durationMatch_PT.
    destruct (component (ch "H") post) as [h r1].
    destruct (component (ch "M") r1) as [m r2].
    destruct (component (ch "S") r2) as [sec r3]. discriminate.
  - cbn [app durationMatch].
    destruct (match_here (c :: r ++ lit "PT" ++ post)); [discriminate | exact IH].
Qed.


(** ** Duration formatting *)

(** C4: a duration [PT#H#M#S] (each component present or not, written in
    decimal, and small enough for binary64 to hold it exactly) is formatted
    as [H:MM:SS] when its hours are above 0 and as [M:SS] otherwise, a
    missing component counting as 0; a string the pattern does not match (one
    that has no [PT] in it) is formatted as [0:00]; and the four examples of
    the specification. *)
Theorem formatDuration_formats :
  (forall h m s : option N, safe h -> safe m -> safe s ->
     formatDuration (iso_duration h m s) =
     if (0 <? or_zero h)%N
     then format_H_MM_SS (or_zero h) (or_zero m) (or_zero s)
     else format_M_SS (or_zero m) (or_zero s))
  /\ (forall str, includes str (lit "PT") = false ->
        formatDuration str = lit "0:00")
  /\ formatDuration (lit "PT1H2M3S") = lit "1:02:03"
  /\ formatDuration (lit "PT5M") = lit "5:00"
  /\ formatDuration (lit "PT45S") = lit "0:45"
  /\ formatDuration [] = lit "0:00".
Proof.
  split; [|split; [|repeat split; vm_compute; reflexivity]].
  - intros h m s _ _ _. apply formatDuration_components.
  - intros str Hstr. unfold formatDuration.
    rewrite (durationMatch_without_PT str Hstr). reflexivity.
Qed.

Lemma formatDuration_formats_witness :
  (safe (Some 1%N) /\ safe None /\ safe (Some 3%N))
  /\ formatDuration (iso_duration (Some 1%N) None (Some 3%N))
     = format_H_MM_SS 1 0 3
  /\ includes (lit "P1D") (lit "PT") = false
  /\ formatDuration (lit "P1D") = lit "0:00".
Proof.
  split; [|split; [|split]].
  - repeat split; vm_compute; intros H; discriminate H.
  - apply (proj1 formatDuration_formats (Some 1%N) None (Some 3%N)).
    + vm_compute; intros H; discriminate H.
    + exact I.
    + vm_compute; intros H; discriminate H.
  - reflexivity.
  - apply (proj1 (proj2 formatDuration_formats) (lit "P1D")). reflexivity.
Defined.

(** C10: [formatDuration] carries nothing over from one component to the
    next: seconds of 60 or more, and minutes of 60 or more beside hours, come
    out as written ([PT90S] gives [0:90]); and the pattern is not anchored:
    a string with [PT] anywhere in it is matched, and formatted from what
    follows its first [PT], whatever stands before ([xxPT5Myy] gives
    [5:00]). *)
Theorem formatDuration_no_carry_no_anchor :
  (forall (m : option N) (s : N), safe m ->
     (60 <= s)%N -> (s <= MAX_SAFE_INTEGER)%N ->
     formatDuration (iso_duration None m (Some s))
     = toString (or_zero m) ++ lit ":" ++ toString s)
  /\ (forall (h m : N) (s : option N),
        (0 < h)%N -> (h <= MAX_SAFE_INTEGER)%N ->
        (60 <= m)%N -> (m <= MAX_SAFE_INTEGER)%N -> safe s ->
        formatDuration (iso_duration (Some h) (Some m) s)
        = toString h ++ lit ":" ++ toString m ++ lit ":"
            ++ two_digits (or_zero s))
  /\ formatDuration (lit "PT90S") = lit "0:90"
  /\ (forall pre post, durationMatch (pre ++ lit "PT" ++ post) <> None)
  /\ (forall pre post, includes pre (lit "PT") = false ->
        formatDuration (pre ++ lit "PT" ++ post)
        = formatDuration (lit "PT" ++ post))
  /\ formatDuration (lit "xxPT5Myy") = lit "5:00".
Proof.
  split; [|split; [|split; [|split; [|split]]]].
  - intros m s _ Hs _. rewrite formatDuration_components. cbn [or_zero].
    change (0 <? 0)%N with false. cbv iota. unfold format_M_SS.
    rewrite two_digits_long by lia. reflexivity.
  - intros h m s Hh _ Hm _ _. rewrite formatDuration_components.
    cbn [or_zero]. apply N.ltb_lt in Hh. rewrite Hh.
    unfold format_H_MM_SS. rewrite two_digits_long by lia. reflexivity.
  - vm_compute. reflexivity.
  - apply durationMatch_finds_PT.
  - intros pre post Hpre. unfold formatDuration.
    rewrite (durationMatch_skips_prefix pre post Hpre). reflexivity.
  - vm_compute. reflexivity.
Qed.

Lemma formatDuration_no_carry_no_anchor_witness :
  formatDuration (iso_duration None (Some 3%N) (Some 75%N))
  = toString 3 ++ lit ":" ++ toString 75
  /\ formatDuration (iso_duration (Some 1%N) (Some 75%N) None)
     = toString 1 ++ lit ":" ++ toString 75 ++ lit ":" ++ two_digits 0
  /\ formatDuration (lit "xx" ++ lit "PT" ++ lit "5Myy")
     = formatDuration (lit "PT" ++ lit "5Myy").
Proof.
  split; [|split].
  - apply (proj1 formatDuration_no_carry_no_anchor (Some 3%N) 75%N);
      vm_compute; intros H; discriminate H.
  - apply (proj1 (proj2 formatDuration_no_carry_no_anchor) 1%N 75%N None);
      try exact I; try reflexivity; vm_compute; intros H; discriminate H.
  - apply (proj1 (proj2 (proj2 (proj2 (proj2
             formatDuration_no_carry_no_anchor)))) (lit "xx") (lit "5Myy")).
    reflexivity.
Defined.


(** ** Catalog search *)

Lemma in_range_bounds (lo hi : option Z) (iso : jsstring) :
  in_range lo hi iso = true ->
  exists c, durationMatch iso = Some c
    /\ match lo with Some l => l <= totalSeconds c | None => True end
    /\ match hi with Some h => totalSeconds c <= h | None => True end.
Proof.
  unfold in_range. destruct (durationMatch iso) as [c|]; [|discriminate].
  intros H. apply andb_true_iff in H. destruct H as [Hlo Hhi].
  exists c. split; [reflexivity|]. split.
  - destruct lo; [apply Z.leb_le; exact Hlo | exact I].
  - destruct hi; [apply Z.leb_le; exact Hhi | exact I].
Qed.

Lemma in_range_seconds_within (lo hi : option Z) (iso : jsstring) :
  in_range lo hi iso = true -> seconds_within lo hi iso.
Proof.
  intros Hin h m s -> _. apply in_range_bounds in Hin.
  destruct Hin as (c & Hmatch & Hlo & Hhi).
  rewrite durationMatch_iso in Hmatch. injection Hmatch as <-.
  assert (Htotal : totalSeconds (option_map toString h, option_map toString m,
                                 option_map toString s)
                   = Z.of_N (iso_seconds h m s)).
  { unfold totalSeconds, iso_seconds. rewrite !capture_or_toString. lia. }
  rewrite Htotal in Hlo, Hhi. split; assumption.
Qed.

Section CatalogFacts.

Variable msg : jsstring.

Lemma filterByDuration_filtered (maxResults : Z) (lo hi : option Z)
    (items : list VideoItem) :
  forall results videos, Forall (filtered lo hi) results ->
  filterByDuration msg maxResults lo hi items results = inr videos ->
  Forall (filtered lo hi) videos.
Proof.
  induction items as [|video rest IH]; intros results videos Hres.
  - cbn [filterByDuration]. intros H; injection H as <-. exact Hres.
  - cbn [filterByDuration].
    destruct (vi_snippet video) as [snippet|]; [|apply IH; exact Hres].
    destruct (vi_contentDetails video) as [[iso|]|];
      [|discriminate|apply IH; exact Hres].
    destruct (durationMatch iso) as [c|] eqn:Hmatch; [|apply IH; exact Hres].
    destruct (match lo with Some l => totalSeconds c <? l | None => false end)
      eqn:Hlo; [apply IH; exact Hres|].
    destruct (match hi with Some h => h <? totalSeconds c | None => false end)
      eqn:Hhi; [apply IH; exact Hres|].
    assert (Hnew : Forall (filtered lo hi)
                     (results ++ [videoData video snippet iso])).
    { apply Forall_app. split; [exact Hres|].
      constructor; [|constructor].
      split; [|reflexivity].
      cbn [duration videoData]. unfold in_range. rewrite Hmatch.
      apply andb_true_iff. split.
      - destruct lo as [l|]; [|reflexivity].
        apply Z.leb_le. apply Z.ltb_ge in Hlo. exact Hlo.
      - destruct hi as [h|]; [|reflexivity].
        apply Z.leb_le. apply Z.ltb_ge in Hhi. exact Hhi. }
    destruct (maxResults <=? Z.of_nat (List.length (results ++ [_]))).
    + intros H; injection H as <-. exact Hnew.
    + apply IH; exact Hnew.
Qed.

Lemma filterByDuration_length (maxResults : Z) (lo hi : option Z)
    (items : list VideoItem) :
  forall results videos, Z.of_nat (List.length results) < maxResults ->
  filterByDuration msg maxResults lo hi items results = inr videos ->
  Z.of_nat (List.length videos) <= maxResults.
Proof.
  induction items as [|video rest IH]; intros results videos Hres.
  - cbn [filterByDuration]. intros H; injection H as <-. lia.
  - cbn [filterByDuration].
    destruct (vi_snippet video) as [snippet|]; [|apply IH; exact Hres].
    destruct (vi_contentDetails video) as [[iso|]|];
      [|discriminate|apply IH; exact Hres].
    destruct (durationMatch iso) as [c|]; [|apply IH; exact Hres].
    destruct (match lo with Some l => totalSeconds c <? l | None => false end);
      [apply IH; exact Hres|].
    destruct (match hi with Some h => h <? totalSeconds c | None => false end);
      [apply IH; exact Hres|].
    destruct (Z.leb_spec maxResults
                (Z.of_nat (List.length (results ++ [videoData video snippet iso]))))
      as [Hfull|Hroom].
    + intros H; injection H as <-.
      rewrite length_app in *. cbn [List.length] in *. lia.
    + apply IH. exact Hroom.
Qed.

(** An entry whose duration string the pattern does not match changes
    nothing. *)
Lemma filterByDuration_skips (maxResults : Z) (lo hi : option Z)
    (bad : VideoItem) (iso : jsstring) (after : list VideoItem)
    (before : list VideoItem) :
  vi_contentDetails bad = Some (Some iso) -> durationMatch iso = None ->
  forall results,
  filterByDuration msg maxResults lo hi (before ++ bad :: after) results
  = filterByDuration msg maxResults lo hi (before ++ after) results.
Proof.
  intros Hbad Hnone. induction before as [|video rest IH]; intros results.
  - cbn [app filterByDuration]. rewrite Hbad, Hnone.
    destruct (vi_snippet bad) as [snippet|]; reflexivity.
  - cbn [app filterByDuration].
    destruct (vi_snippet video) as [snippet|]; [|apply IH].
    destruct (vi_contentDetails video) as [[d|]|]; [|reflexivity|apply IH].
    destruct (durationMatch d) as [c|]; [|apply IH].
    destruct (match lo with Some l => totalSeconds c <? l | None => false end);
      [apply IH|].
    destruct (match hi with Some h => h <? totalSeconds c | None => false end);
      [apply IH|].
    destruct (maxResults <=? Z.of_nat (List.length (results ++ [_])));
      [reflexivity | apply IH].
Qed.

(** The loop ends without a throw when no item lacks its duration. *)
Lemma filterByDuration_total (maxResults : Z) (lo hi : option Z)
    (items : list VideoItem) :
  Forall (fun video => lacks_duration video = false) items ->
  forall results,
  exists videos,
    filterByDuration msg maxResults lo hi items results = inr videos.
Proof.
  induction 1 as [|video rest Hvideo _ IH]; intros results.
  - eexists; reflexivity.
  - cbn [filterByDuration]. unfold lacks_duration in Hvideo.
    destruct (vi_snippet video) as [snippet|]; [|apply IH].
    destruct (vi_contentDetails video) as [[d|]|]; [|discriminate|apply IH].
    destruct (durationMatch d) as [c|]; [|apply IH].
    destruct (match lo with Some l => totalSeconds c <? l | None => false end);
      [apply IH|].
    destruct (match hi with Some h => h <? totalSeconds c | None => false end);
      [apply IH|].
    destruct (maxResults <=? Z.of_nat (List.length (results ++ [_])));
      [eexists; reflexivity | apply IH].
Qed.

(** The only throw of the loop is the engine's. *)
Lemma filterByDuration_error (maxResults : Z) (lo hi : option Z)
    (items : list VideoItem) :
  forall results e,
  filterByDuration msg maxResults lo hi items results = inl e ->
  e = ErrorObj External msg.
Proof.
  induction items as [|video rest IH]; intros results e.
  - discriminate.
  - cbn [filterByDuration].
    destruct (vi_snippet video) as [snippet|]; [|apply IH].
    destruct (vi_contentDetails video) as [[d|]|]; [| |apply IH].
    + destruct (durationMatch d) as [c|]; [|apply IH].
      destruct (match lo with Some l => totalSeconds c <? l | None => false end);
        [apply IH|].
      destruct (match hi with Some h => h <? totalSeconds c | None => false end);
        [apply IH|].
      destruct (maxResults <=? Z.of_nat (List.length (results ++ [_])));
        [discriminate | apply IH].
    + intros H; injection H as <-. reflexivity.
Qed.

(** When [searchVideos] returns, it returns what the loop built, or
    nothing. *)
Lemma searchVideos_returns (yt : YouTube) (query apiKey : jsstring)
    (maxResults : Z) (lo hi : option Z) (videos : list YouTubeVideoData) :
  searchVideos msg yt query apiKey (Some maxResults) lo hi = inr videos ->
  videos = [] \/
  exists hit hits items,
    yt_search yt (searchRequest query apiKey maxResults hi)
    = Ok (Some (hit :: hits))
    /\ filterByDuration msg maxResults lo hi items [] = inr videos.
Proof.
  unfold searchVideos, searchVideos_try.
  destruct (yt_search yt _) as [f|status statusText body|[[|hit hits]|]].
  - destruct f; discriminate.
  - destruct (match ed_code _ with Some c => c =? 403 | None => false end);
      discriminate.
  - intros H; injection H as <-. left; reflexivity.
  - destruct (flat_map _ (hit :: hits)) as [|id ids].
    + intros H; injection H as <-. left; reflexivity.
    + destruct (yt_videos yt _ apiKey) as [f|s t b|[[|d ds]|]].
      * destruct f; discriminate.
      * discriminate.
      * intros H; injection H as <-. left; reflexivity.
      * intros H. right. exists hit, hits, (d :: ds).
        split; [reflexivity|].
        destruct (filterByDuration msg maxResults lo hi (d :: ds) [])
          as [[k m|]|videos']; [discriminate|discriminate|].
        injection H as <-. reflexivity.
      * intros H; injection H as <-. left; reflexivity.
  - intros H; injection H as <-. left; reflexivity.
Qed.

Lemma searchVideos_filtered (yt : YouTube) (query apiKey : jsstring)
    (maxResults : Z) (lo hi : option Z) (videos : list YouTubeVideoData) :
  searchVideos msg yt query apiKey (Some maxResults) lo hi = inr videos ->
  Forall (filtered lo hi) videos.
Proof.
  intros H.
  destruct (searchVideos_returns _ _ _ _ _ _ _ H)
    as [->|(hit & hits & items & _ & Hloop)].
  - constructor.
  - apply (filterByDuration_filtered _ _ _ _ _ _ (Forall_nil _) Hloop).
Qed.

Lemma searchVideos_same_answers (yt yt' : YouTube) (query apiKey : jsstring)
    (maxResults : option Z) (lo hi : option Z) :
  let n := match maxResults with Some n => n | None => 20 end in
  yt_search yt' (searchRequest query apiKey n hi)
  = yt_search yt (searchRequest query apiKey n hi) ->
  (forall ids, yt_videos yt' ids apiKey = yt_videos yt ids apiKey) ->
  searchVideos msg yt' query apiKey maxResults lo hi
  = searchVideos msg yt query apiKey maxResults lo hi.
Proof.
  intros n Hsearch Hvideos. unfold searchVideos, searchVideos_try.
  fold n. rewrite Hsearch.
  destruct (yt_search yt _) as [f|status statusText body|[[|hit hits]|]];
    try reflexivity.
  destruct (flat_map _ (hit :: hits)) as [|id ids]; [reflexivity|].
  rewrite Hvideos. reflexivity.
Qed.

Lemma searchVideos_succeeds (yt : YouTube) (query apiKey : jsstring)
    (maxResults : Z) (lo hi : option Z)
    (hits : option (list SearchItem)) (details : list VideoItem) :
  yt_search yt (searchRequest query apiKey maxResults hi) = Ok hits ->
  (forall ids, yt_videos yt ids apiKey = Ok (Some details)) ->
  Forall (fun video => lacks_duration video = false) details ->
  exists videos,
    searchVideos msg yt query apiKey (Some maxResults) lo hi = inr videos.
Proof.
  intros Hsearch Hvideos Hdetails. unfold searchVideos, searchVideos_try.
  rewrite Hsearch.
  destruct hits as [[|hit hits]|]; try (eexists; reflexivity).
  destruct (flat_map _ (hit :: hits)) as [|id ids]; [eexists; reflexivity|].
  rewrite Hvideos.
  destruct details as [|d ds]; [eexists; reflexivity|].
  destruct (filterByDuration_total maxResults lo hi _ Hdetails [])
    as [videos ->].
  eexists; reflexivity.
Qed.

(** With the catalog giving no more hits than asked for, a search that
    returns an entry was for at least one. *)
Lemma searchVideos_length (yt : YouTube) (query apiKey : jsstring)
    (maxResults : Z) (lo hi : option Z) (videos : list YouTubeVideoData) :
  1 <= maxResults
  \/ honours_count yt (searchRequest query apiKey maxResults hi) ->
  searchVideos msg yt query apiKey (Some maxResults) lo hi = inr videos ->
  Z.of_nat (List.length videos) <= maxResults.
Proof.
  intros Hcap H.
  assert (Hcases : 1 <= maxResults
                   \/ (0 <= maxResults /\ videos = [])).
  { destruct Hcap as [Hcap|Hcount]; [left; exact Hcap|].
    unfold honours_count in Hcount.
    destruct (searchVideos_returns _ _ _ _ _ _ _ H)
      as [->|(hit & hits & items & Hsearch & _)].
    - right. split; [|reflexivity].
      revert H. unfold searchVideos, searchVideos_try.
      destruct (yt_search yt _) as [f|status statusText body|body]
        eqn:Hsearch.
      + destruct f; discriminate.
      + destruct (match ed_code _ with Some c => c =? 403 | None => false end);
          discriminate.
      + intros _. specialize (Hcount _ eq_refl).
        cbn [sr_maxResults searchRequest] in Hcount. lia.
    - left. specialize (Hcount _ Hsearch).
      cbn [sr_maxResults searchRequest List.length] in Hcount. lia. }
  destruct Hcases as [Hone|[Hzero ->]].
  - destruct (searchVideos_returns _ _ _ _ _ _ _ H)
      as [->|(hit & hits & items & _ & Hloop)].
    + cbn [List.length]. lia.
    + apply (filterByDuration_length _ _ _ _ [] _) with (2 := Hloop).
      cbn [List.length]. lia.
  - cbn [List.length]. lia.
Qed.

End CatalogFacts.

(** C7: [searchVideos] asks the catalog for [min(2*maxResults, 50)] hits,
    and nothing else of its search endpoint.  Of the sequence it returns,
    every entry has a duration whose seconds, as the loop reads them, lie
    within the bounds that were given, which for a well-formed [PT#H#M#S]
    are [3600*hours + 60*minutes + seconds]; and the sequence holds at most
    [maxResults] entries, for every [maxResults] when the catalog gives no
    more hits than the request asks for, and in any case when [maxResults]
    is at least 1.  An entry whose duration string the pattern does not
    match is passed over, the loop going on as if it were not there, and
    the search returns whenever both requests are answered with items that
    carry their duration string.  The numbers read are taken to be
    integers that binary64 holds exactly. *)
Theorem searchVideos_bounded (msg_match_of_undefined : jsstring)
    (yt : YouTube) (query apiKey : jsstring) (maxResults : Z)
    (lo hi : option Z) :
  (sr_maxResults (searchRequest query apiKey maxResults hi)
   = Z.min (2 * maxResults) 50
   /\ forall yt',
        yt_search yt' (searchRequest query apiKey maxResults hi)
        = yt_search yt (searchRequest query apiKey maxResults hi) ->
        (forall ids, yt_videos yt' ids apiKey = yt_videos yt ids apiKey) ->
        searchVideos msg_match_of_undefined yt' query apiKey
          (Some maxResults) lo hi
        = searchVideos msg_match_of_undefined yt query apiKey
            (Some maxResults) lo hi)
  /\ (forall videos,
        exact_catalog yt apiKey ->
        searchVideos msg_match_of_undefined yt query apiKey
          (Some maxResults) lo hi = inr videos ->
        Forall (fun v => in_range lo hi (duration v) = true
                         /\ seconds_within lo hi (duration v)) videos
        /\ (1 <= maxResults
            \/ honours_count yt (searchRequest query apiKey maxResults hi) ->
            Z.of_nat (List.length videos) <= maxResults))
  /\ (forall before bad iso after results,
        vi_contentDetails bad = Some (Some iso) ->
        durationMatch iso = None ->
        filterByDuration msg_match_of_undefined maxResults lo hi
          (before ++ bad :: after) results
        = filterByDuration msg_match_of_undefined maxResults lo hi
            (before ++ after) results)
  /\ (forall hits details,
        yt_search yt (searchRequest query apiKey maxResults hi) = Ok hits ->
        (forall ids, yt_videos yt ids apiKey = Ok (Some details)) ->
        Forall (fun video => lacks_duration video = false) details ->
        exists videos,
          searchVideos msg_match_of_undefined yt query apiKey
            (Some maxResults) lo hi = inr videos).
Proof.
  split; [split|split; [|split]].
  - cbn [sr_maxResults searchRequest]. f_equal. lia.
  - intros yt' Hs Hv.
    apply (searchVideos_same_answers _ yt yt' query apiKey (Some maxResults));
      assumption.
  - intros videos _ H. split.
    + pose proof (searchVideos_filtered _ _ _ _ _ _ _ _ H) as Hall.
      apply Forall_impl with (2 := Hall). intros v [Hv _].
      split; [exact Hv | apply in_range_seconds_within; exact Hv].
    + intros Hcap. apply (searchVideos_length _ _ _ _ _ _ _ _ Hcap H).
  - intros before bad iso after results Hbad Hnone.
    apply filterByDuration_skips with (iso := iso); assumption.
  - intros hits details. apply searchVideos_succeeds.
Qed.

Lemma searchVideos_bounded_witness :
  let yt := catalog_counting [item "aaaaaaaaaa1" "First" "PT14M32S";
                              item "bbbbbbbbbb2" "Second" "no duration";
                              item "cccccccccc3" "Third" "PT50M"] in
  (exists videos,
     searchVideos v8_match_of_undefined yt (lit "calm") (lit "key") (Some 15)
       (Some 720) (Some 1800) = inr videos
     /\ map videoId videos = [lit "aaaaaaaaaa1"]
     /\ Forall (fun v => in_range (Some 720) (Some 1800) (duration v) = true
                         /\ seconds_within (Some 720) (Some 1800) (duration v))
          videos
     /\ Z.of_nat (List.length videos) <= 15)
  /\ (forall videos,
        searchVideos v8_match_of_undefined yt (lit "calm") (lit "key") (Some 0)
          (Some 720) (Some 1800) = inr videos ->
        Z.of_nat (List.length videos) <= 0).
Proof.
  intros yt.
  assert (Hexact : exact_catalog yt (lit "key")).
  { intros ids items H. injection H as <-.
    repeat constructor; vm_compute; discriminate. }
  split.
  - destruct (proj2 (proj2 (proj2
                (searchVideos_bounded v8_match_of_undefined yt (lit "calm")
                   (lit "key") 15 (Some 720) (Some 1800))))
                _ _ eq_refl (fun _ => eq_refl)) as [videos Hvideos].
    { repeat constructor. }
    exists videos. split; [exact Hvideos|].
    destruct (proj1 (proj2
                (searchVideos_bounded v8_match_of_undefined yt (lit "calm")
                   (lit "key") 15 (Some 720) (Some 1800))) videos Hexact
                Hvideos) as [Hin Hlen].
    split; [|split; [exact Hin | apply Hlen; left; lia]].
    vm_compute in Hvideos. injection Hvideos as <-. reflexivity.
  - intros videos Hvideos.
    apply (proj1 (proj2
             (searchVideos_bounded v8_match_of_undefined yt (lit "calm")
                (lit "key") 0 (Some 720) (Some 1800))) videos Hexact Hvideos).
    right. intros body Hbody. vm_compute in Hbody. injection Hbody as <-.
    vm_compute. discriminate.
Defined.


(** ** Deduplication *)

Lemma jsstring_eqb_eq (a b : jsstring) : jsstring_eqb a b = true <-> a = b.
Proof.
  unfold jsstring_eqb. destruct (list_eq_dec N.eq_dec a b) as [Heq|Hne].
  - split; [intros _; exact Heq | reflexivity].
  - split; [discriminate | intros Heq; contradiction (Hne Heq)].
Qed.

Lemma jsstring_eqb_refl (a : jsstring) : jsstring_eqb a a = true.
Proof. apply jsstring_eqb_eq. reflexivity. Qed.

Lemma jsstring_eqb_neq (a b : jsstring) : jsstring_eqb a b = false <-> a <> b.
Proof.
  split.
  - intros H Heq. apply jsstring_eqb_eq in Heq. congruence.
  - intros H. destruct (jsstring_eqb a b) eqn:E; [|reflexivity].
    apply jsstring_eqb_eq in E. contradiction.
Qed.

Lemma known_In (id : jsstring) (seen : list jsstring) :
  known id seen = true <-> In id seen.
Proof.
  unfold known. rewrite existsb_exists. split.
  - intros (k & Hin & Hk). apply jsstring_eqb_eq in Hk. subst. exact Hin.
  - intros Hin. exists id. split; [exact Hin | apply jsstring_eqb_refl].
Qed.

Section MapFacts.

Context {V : Type}.
Implicit Types (m : list (jsstring * V)) (k : jsstring) (v : V).

Lemma Map_set_In m k v e :
  In e (Map_set m k v) -> In e m \/ e = (k, v).
Proof.
  induction m as [|[k' v'] r IH]; cbn [Map_set].
  - intros [ <- | [] ]. right; reflexivity.
  - destruct (jsstring_eqb k' k) eqn:Hk.
    + apply jsstring_eqb_eq in Hk. subst k'.
      intros [ <- | Hin ]; [right; reflexivity | left; right; exact Hin].
    + intros [ <- | Hin ]; [left; left; reflexivity|].
      destruct (IH Hin) as [Hr|He]; [left; right; exact Hr | right; exact He].
Qed.

Lemma Map_set_keys m k v :
  map fst (Map_set m k v)
  = if known k (map fst m) then map fst m else map fst m ++ [k].
Proof.
  induction m as [|[k' v'] r IH]; cbn [Map_set].
  - reflexivity.
  - cbn [map fst known existsb]. fold (known k (map fst r)).
    destruct (jsstring_eqb k' k) eqn:Hk; cbn [orb map fst].
    + reflexivity.
    + rewrite IH. destruct (known k (map fst r)); reflexivity.
Qed.

Lemma Map_set_NoDup m k v :
  NoDup (map fst m) -> NoDup (map fst (Map_set m k v)).
Proof.
  intros Hm. rewrite Map_set_keys.
  destruct (known k (map fst m)) eqn:Hk; [exact Hm|].
  apply NoDup_app; repeat split.
  - exact Hm.
  - constructor; [intros [] | constructor].
  - intros x Hx [ <- | [] ].
    apply known_In in Hx. congruence.
Qed.


Lemma Map_fold_NoDup (es : list (jsstring * V)) :
  forall m, NoDup (map fst m) ->
  NoDup (map fst (fold_left (fun m e => Map_set m (fst e) (snd e)) es m)).
Proof.
  induction es as [|[k v] r IH]; intros m Hm; cbn [fold_left].
  - exact Hm.
  - apply IH. apply Map_set_NoDup. exact Hm.
Qed.

End MapFacts.



Lemma Map_set_keyed m (v : YouTubeVideoData) :
  keyed m -> keyed (Map_set m (videoId v) v).
Proof.
  unfold keyed. intros Hm. apply Forall_forall. intros e He.
  destruct (Map_set_In _ _ _ _ He) as [ Hin | -> ].
  - rewrite Forall_forall in Hm. apply Hm. exact Hin.
  - reflexivity.
Qed.

Lemma Map_fold_keyed (l : list YouTubeVideoData) :
  forall m, keyed m ->
  keyed (fold_left (fun m e => Map_set m (fst e) (snd e)) (entries l) m).
Proof.
  induction l as [|v r IH]; intros m Hm; cbn [entries map fold_left fst snd].
  - exact Hm.
  - apply IH. apply Map_set_keyed. exact Hm.
Qed.

Lemma keyed_ids m : keyed m -> map videoId (map snd m) = map fst m.
Proof.
  unfold keyed. induction 1 as [|e r He _ IH]; cbn [map].
  - reflexivity.
  - rewrite IH, He. reflexivity.
Qed.

(** The identities of the map, in order: those it had, then the new ones
    in the order of their first occurrence. *)
Lemma Map_fold_keys (l : list YouTubeVideoData) :
  forall m : list (jsstring * YouTubeVideoData),
  map fst (fold_left (fun m e => Map_set m (fst e) (snd e)) (entries l) m)
  = map fst m ++ map videoId (keep_first (map fst m) l).
Proof.
  induction l as [|v r IH]; intros m;
    cbn [entries map fold_left fst snd keep_first].
  - rewrite List.app_nil_r. reflexivity.
  - fold (entries r). rewrite IH, Map_set_keys.
    destruct (known (videoId v) (map fst m)).
    + reflexivity.
    + cbn [map]. rewrite <- List.app_assoc. reflexivity.
Qed.

Lemma find_Map_set (id : jsstring) m (v : YouTubeVideoData) :
  keyed m ->
  find (has_id id) (map snd (Map_set m (videoId v) v))
  = if has_id id v then Some v else find (has_id id) (map snd m).
Proof.
  unfold keyed. induction 1 as [|[k' v'] r He _ IH]; cbn [Map_set map snd find].
  - reflexivity.
  - cbn [fst snd] in He. subst k'.
    destruct (jsstring_eqb (videoId v') (videoId v)) eqn:Hk;
      cbn [map snd find].
    + apply jsstring_eqb_eq in Hk. unfold has_id. rewrite Hk.
      destruct (jsstring_eqb (videoId v) id); reflexivity.
    + rewrite IH. unfold has_id.
      destruct (jsstring_eqb (videoId v') id) eqn:Hv'; [|reflexivity].
      apply jsstring_eqb_eq in Hv'. subst id.
      apply jsstring_eqb_neq in Hk.
      assert (Hne : jsstring_eqb (videoId v) (videoId v') = false).
      { apply jsstring_eqb_neq. congruence. }
      rewrite Hne. reflexivity.
Qed.

Lemma find_snoc {A : Type} (p : A -> bool) (l : list A) (x : A) :
  find p (l ++ [x])
  = match find p l with
    | Some y => Some y
    | None => if p x then Some x else None
    end.
Proof.
  induction l as [|a r IH]; cbn [app find].
  - reflexivity.
  - destruct (p a); [reflexivity | exact IH].
Qed.

(** The value bound to an identity is that of its last occurrence. *)
Lemma Map_fold_find (id : jsstring) (l : list YouTubeVideoData) :
  forall m, keyed m ->
  find (has_id id)
    (map snd (fold_left (fun m e => Map_set m (fst e) (snd e)) (entries l) m))
  = match find (has_id id) (rev l) with
    | Some v => Some v
    | None => find (has_id id) (map snd m)
    end.
Proof.
  induction l as [|v r IH]; intros m Hm;
    cbn [entries map fold_left fst snd rev].
  - reflexivity.
  - fold (entries r). rewrite (IH _ (Map_set_keyed m v Hm)).
    rewrite find_snoc, (find_Map_set id m v Hm).
    destruct (find (has_id id) (rev r)); [reflexivity|].
    destruct (has_id id v); reflexivity.
Qed.

Lemma dedupe_ids (l : list YouTubeVideoData) :
  map videoId (dedupe l) = map videoId (keep_first [] l).
Proof.
  unfold dedupe, Map_values, Map_of. fold (entries l).
  rewrite keyed_ids by (apply Map_fold_keyed; constructor).
  rewrite Map_fold_keys. reflexivity.
Qed.

Lemma dedupe_NoDup (l : list YouTubeVideoData) :
  NoDup (map videoId (dedupe l)).
Proof.
  unfold dedupe, Map_values, Map_of. fold (entries l).
  rewrite keyed_ids by (apply Map_fold_keyed; constructor).
  apply Map_fold_NoDup. constructor.
Qed.

Lemma dedupe_find (id : jsstring) (l : list YouTubeVideoData) :
  find (has_id id) (dedupe l) = find (has_id id) (rev l).
Proof.
  unfold dedupe, Map_values, Map_of. fold (entries l).
  rewrite (Map_fold_find id l []) by constructor.
  destruct (find (has_id id) (rev l)); reflexivity.
Qed.

Lemma find_unique (l : list YouTubeVideoData) (v : YouTubeVideoData) :
  NoDup (map videoId l) -> In v l -> find (has_id (videoId v)) l = Some v.
Proof.
  induction l as [|a r IH]; intros Hnd Hin; [contradiction|].
  cbn [map] in Hnd. inversion Hnd as [|? ? Hnotin Hnd']; subst.
  cbn [find]. destruct Hin as [ -> | Hin ].
  - unfold has_id. rewrite jsstring_eqb_refl. reflexivity.
  - unfold has_id at 1. destruct (jsstring_eqb (videoId a) (videoId v)) eqn:E.
    + apply jsstring_eqb_eq in E. exfalso. apply Hnotin. rewrite E.
      apply in_map. exact Hin.
    + apply IH; assumption.
Qed.


Lemma find_firstn {A : Type} (p : A -> bool) (l : list A) :
  forall n x, In x (firstn n l) -> p x = true ->
  find p (firstn n l) = find p l.
Proof.
  induction l as [|y r IH]; intros n x Hin Hp.
  - rewrite firstn_nil. reflexivity.
  - destruct n as [|n]; [contradiction Hin|].
    cbn [firstn find]. destruct (p y) eqn:Hy; [reflexivity|].
    cbn [firstn In] in Hin. destruct Hin as [->|Hin]; [congruence|].
    apply (IH n x Hin Hp).
Qed.

(** C2, as the code has it: an identity that occurs in the merged results
    occurs exactly once after deduplication, at the place of its first
    occurrence, and bound to the data of its LAST occurrence in merge order.
    The candidate set is made of the first 20 of these: an identity that is
    among the first 20 distinct identities occurs in it exactly once, with
    the data of its last occurrence, any other identity does not occur in
    it, and it holds 20 entries or as many as there are distinct
    identities. *)
Theorem dedupe_once_last_data (allVideos : list YouTubeVideoData)
    (id : jsstring) :
  In id (map videoId allVideos) ->
  let distinct := map videoId (keep_first [] allVideos) in
  let candidates := map videoId (uniqueVideos_of allVideos) in
  count_occ (list_eq_dec N.eq_dec) (map videoId (dedupe allVideos)) id = 1%nat
  /\ map videoId (dedupe allVideos) = distinct
  /\ find (has_id id) (dedupe allVideos) = find (has_id id) (rev allVideos)
  /\ candidates = firstn 20 distinct
  /\ (In id (firstn 20 distinct) ->
      count_occ (list_eq_dec N.eq_dec) candidates id = 1%nat
      /\ find (has_id id) (uniqueVideos_of allVideos)
         = find (has_id id) (rev allVideos))
  /\ (~ In id (firstn 20 distinct) ->
      count_occ (list_eq_dec N.eq_dec) candidates id = 0%nat)
  /\ List.length (uniqueVideos_of allVideos)
     = Nat.min 20 (List.length distinct).
Proof.
  intros Hid distinct candidates.
  pose proof (dedupe_NoDup allVideos) as Hnd.
  assert (Hcandidates : candidates = firstn 20 distinct).
  { unfold candidates, distinct, uniqueVideos_of.
    rewrite <- firstn_map, dedupe_ids. reflexivity. }
  assert (Hcapped : NoDup candidates).
  { rewrite Hcandidates. unfold distinct. rewrite <- dedupe_ids.
    rewrite <- (firstn_skipn 20 (map videoId (dedupe allVideos))) in Hnd.
    apply NoDup_app_remove_r in Hnd. exact Hnd. }
  split; [|split; [|split; [|split; [|split; [|split]]]]].
  - apply (proj1 (NoDup_count_occ' _ _) Hnd).
    apply in_map_iff in Hid. destruct Hid as (v & Hv & Hin).
    destruct (find (has_id id) (rev allVideos)) as [x|] eqn:Hfind.
    + rewrite <- dedupe_find in Hfind. apply find_some in Hfind.
      destruct Hfind as [Hx Hxid]. apply jsstring_eqb_eq in Hxid.
      rewrite <- Hxid. apply in_map. exact Hx.
    + apply in_rev in Hin.
      pose proof (find_none _ _ Hfind v Hin) as Hno.
      unfold has_id in Hno. rewrite Hv, jsstring_eqb_refl in Hno.
      discriminate Hno.
  - apply dedupe_ids.
  - apply dedupe_find.
  - exact Hcandidates.
  - intros Hfirst. rewrite <- Hcandidates in Hfirst. split.
    + apply (proj1 (NoDup_count_occ' _ _) Hcapped). exact Hfirst.
    + rewrite <- dedupe_find. unfold candidates in Hfirst.
      apply in_map_iff in Hfirst. destruct Hfirst as (x & Hx & Hin).
      unfold uniqueVideos_of in *.
      apply (find_firstn _ _ _ x Hin).
      unfold has_id. rewrite Hx. apply jsstring_eqb_refl.
  - intros Hnot. rewrite <- Hcandidates in Hnot.
    apply count_occ_not_In. exact Hnot.
  - unfold uniqueVideos_of, distinct. rewrite length_firstn.
    rewrite <- dedupe_ids, length_map. reflexivity.
Qed.

Lemma dedupe_once_last_data_witness :
  let first := video "aaaaaaaaaa1" "Seen first" "PT14M32S" in
  let other := video "bbbbbbbbbb2" "Another" "PT20M" in
  let second := video "aaaaaaaaaa1" "Seen second" "PT14M32S" in
  In (lit "aaaaaaaaaa1") (map videoId [first; other; second])
  /\ uniqueVideos_of [first; other; second] = [second; other]
  /\ count_occ (list_eq_dec N.eq_dec)
       (map videoId (uniqueVideos_of [first; other; second]))
       (lit "aaaaaaaaaa1") = 1%nat
  /\ find (has_id (lit "aaaaaaaaaa1")) (uniqueVideos_of [first; other; second])
     = find (has_id (lit "aaaaaaaaaa1")) (rev [first; other; second]).
Proof.
  intros first other second.
  split; [left; reflexivity|]. split; [reflexivity|].
  apply (proj1 (proj2 (proj2 (proj2 (proj2
           (dedupe_once_last_data [first; other; second] (lit "aaaaaaaaaa1")
              (or_introl eq_refl))))))).
  left. reflexivity.
Defined.

(** C2 as the specification words it fails twice.  Of two results with one
    identity, the data kept are those of the second, not of the first.  And
    an identity met after 20 others is in two results and not in the
    candidate set. *)
Lemma dedupe_not_first_data :
  let first := video "aaaaaaaaaa1" "Seen first" "PT14M32S" in
  let second := video "aaaaaaaaaa1" "Seen second" "PT14M32S" in
  let late := numbered 20 "Seen late" in
  let many := map (fun n => numbered n "Video") (seq 0 20)
              ++ [late] ++ [numbered 20 "Seen again"] in
  (uniqueVideos_of ([first] ++ [second]) = [second]
   /\ keep_first [] ([first] ++ [second]) = [first]
   /\ ~ (forall v, In v (uniqueVideos_of ([first] ++ [second])) ->
           find (has_id (videoId v)) ([first] ++ [second]) = Some v))
  /\ (count_occ (list_eq_dec N.eq_dec) (map videoId many) (videoId late)
      = 2%nat
      /\ count_occ (list_eq_dec N.eq_dec)
           (map videoId (uniqueVideos_of many)) (videoId late) = 0%nat).
Proof.
  intros first second late many. split.
  - split; [reflexivity|]. split; [reflexivity|].
    intros H. specialize (H second (or_introl eq_refl)).
    vm_compute in H. discriminate H.
  - split; vm_compute; reflexivity.
Qed.


(** ** The pipeline *)

Lemma mapi_map {A B C : Type} (f : B -> nat -> C) (g : A -> B) (l : list A) :
  forall i, mapi f (map g l) i = mapi (fun x j => f (g x) j) l i.
Proof.
  induction l as [|x r IH]; intros i; cbn [map mapi].
  - reflexivity.
  - rewrite IH. reflexivity.
Qed.


Lemma relabel_kind (kind kind' : ErrorKind) (message message' : jsstring) :
  relabel (ErrorObj kind message) = ErrorObj kind' message' ->
  (kind' = kind /\ message' = message) \/ kind' = ApiKeyError
  \/ kind' = QuotaExceeded \/ kind' = NetworkError.
Proof.
  unfold relabel.
  destruct (includes message (lit "API_KEY") || includes message (lit "apiKey")).
  { intros H; injection H as <- _. right; left; reflexivity. }
  destruct (includes message (lit "quota") || includes message (lit "Quota")).
  { intros H; injection H as <- _. right; right; left; reflexivity. }
  destruct (includes message (lit "network") || includes message (lit "fetch")).
  { intros H; injection H as <- _. right; right; right; reflexivity. }
  intros H; injection H as <- <-. left; split; reflexivity.
Qed.

Lemma relabel_NoCandidates :
  relabel (ErrorObj NoCandidates msg_NoCandidates)
  = ErrorObj NoCandidates msg_NoCandidates.
Proof. vm_compute. reflexivity. Qed.

Lemma relabel_InvalidJson :
  relabel (ErrorObj OracleResponseInvalid msg_InvalidJson)
  = ErrorObj OracleResponseInvalid msg_InvalidJson.
Proof. vm_compute. reflexivity. Qed.

Lemma relabel_NoSelection :
  relabel (ErrorObj OracleResponseInvalid msg_NoSelection)
  = ErrorObj OracleResponseInvalid msg_NoSelection.
Proof. vm_compute. reflexivity. Qed.

Section PipelineFacts.

Variable YOUTUBE_API_KEY : jsstring.
Variable JSON_parse : jsstring -> option JsonValue.
Variable msg_trim_of_undefined msg_property_of_null : jsstring.
Variable msg_match_of_undefined msg_no_primitive : jsstring.

Let fetch := fetchVideoSuggestion YOUTUBE_API_KEY JSON_parse
               msg_trim_of_undefined msg_property_of_null
               msg_match_of_undefined msg_no_primitive.
Let fetch_try := fetchVideoSuggestion_try YOUTUBE_API_KEY JSON_parse
                   msg_trim_of_undefined msg_property_of_null
                   msg_match_of_undefined msg_no_primitive.
Let select' := select JSON_parse msg_trim_of_undefined msg_property_of_null
                 msg_no_primitive.
Let reconcile' := reconcile msg_no_primitive.

Lemma collectVideos_concat (w : World) (range : DurationBand)
    (queries : list jsstring) :
  forall i acc,
  collectVideos YOUTUBE_API_KEY msg_match_of_undefined w range i queries acc
  = acc ++ List.concat (mapi (fun query j =>
              found (searchVideos msg_match_of_undefined (youtube w j) query
                  YOUTUBE_API_KEY
                       (Some 15) (Some (band_min range))
                       (Some (band_max range))))
            queries i).
Proof.
  induction queries as [|query rest IH]; intros i acc;
    cbn [collectVideos mapi List.concat].
  - rewrite List.app_nil_r. reflexivity.
  - destruct (searchVideos msg_match_of_undefined (youtube w i) query
                YOUTUBE_API_KEY (Some 15)
                (Some (band_min range)) (Some (band_max range)))
      as [searchError|videos]; rewrite IH; cbn [found].
    + reflexivity.
    + rewrite <- List.app_assoc. reflexivity.
Qed.

(** Every mood gives one search, for its query, for 15 results within the
    band of the target; a search that fails counts as one that found
    nothing. *)
Lemma allVideos_searches (w : World) (time : Z) (moods : list jsstring) :
  allVideos YOUTUBE_API_KEY msg_match_of_undefined w time moods
  = List.concat (mapi (fun mood j =>
              found (searchVideos msg_match_of_undefined (youtube w j)
                  (searchQuery mood)
                       YOUTUBE_API_KEY (Some 15)
                       (Some (band_min (getDurationRange time)))
                       (Some (band_max (getDurationRange time)))))
            moods 0%nat).
Proof.
  unfold allVideos, searchQueries. rewrite collectVideos_concat.
  cbn [app]. rewrite mapi_map. reflexivity.
Qed.




(** The two ways in which the reading of a reply fails: nothing is
    selected, or what is selected is no candidate and the warning cannot be
    built. *)
Lemma reconcile_error (time : Z) (fallbackVideo : YouTubeVideoData)
    (candidates : list YouTubeVideoData) (selectionData : JsonValue)
    (e : Thrown) :
  reconcile' time fallbackVideo candidates selectionData = inl e ->
  (truthy (get_prop selectionData (lit "selectedVideoId")) = false
   /\ e = ErrorObj OracleResponseInvalid msg_NoSelection)
  \/ (truthy (get_prop selectionData (lit "selectedVideoId")) = true
      /\ (exists v, get_prop selectionData (lit "selectedVideoId") = Some v
                    /\ stringifiable v = false)
      /\ e = ErrorObj External msg_no_primitive).
Proof.
  unfold reconcile', reconcile.
  destruct (truthy (get_prop selectionData (lit "selectedVideoId")));
    cbn [negb].
  - destruct (find _ candidates); [discriminate|].
    destruct (get_prop selectionData (lit "selectedVideoId")) as [v|];
      [|discriminate].
    destruct (stringifiable v) eqn:Hv; cbn [negb]; [discriminate|].
    intros H; injection H as <-. right.
    split; [reflexivity|]. split; [|reflexivity].
    exists v. split; reflexivity || exact Hv.
  - intros H; injection H as <-. left. split; reflexivity.
Qed.

(** What the step from the candidates to the suggestion can fail with, and
    where it comes from. *)
Lemma select_error (w : World) (time : Z) (moods : list jsstring)
    (fallbackVideo : YouTubeVideoData) (candidates : list YouTubeVideoData)
    (e : Thrown) :
  select' w time moods fallbackVideo candidates = inl e ->
  e = ErrorObj OracleResponseInvalid msg_InvalidJson
  \/ e = ErrorObj OracleResponseInvalid msg_NoSelection
  \/ (e = NonError
      /\ gemini w (selectionPrompt time moods candidates)
         = OracleRejects ForeignValue)
  \/ exists message,
       e = ErrorObj External message
       /\ (gemini w (selectionPrompt time moods candidates)
           = OracleRejects (ForeignError message)
           \/ message = msg_trim_of_undefined
           \/ message = msg_property_of_null
           \/ message = msg_no_primitive).
Proof.
  unfold select', select.
  destruct (gemini w _) as [f|[text|]].
  - intros H; injection H as <-. destruct f as [message|]; cbn [thrown_of].
    + right; right; right. exists message. split; [reflexivity|].
      left; reflexivity.
    + right; right; left. split; reflexivity.
  - destruct (JSON_parse (trim text)) as [selectionData|].
    + unfold read_selection.
      assert (Hrec : forall data,
                reconcile msg_no_primitive time fallbackVideo candidates data
                = inl e ->
                e = ErrorObj OracleResponseInvalid msg_NoSelection
                \/ e = ErrorObj External msg_no_primitive).
      { intros data H. apply reconcile_error in H.
        destruct H as [[_ ->]|(_ & _ & ->)]; [left|right]; reflexivity. }
      destruct selectionData;
        try (intros H; apply Hrec in H; destruct H as [->| ->];
             [right; left; reflexivity|];
             right; right; right; eexists; split; [reflexivity|];
             right; right; right; reflexivity).
      intros H; injection H as <-.
      right; right; right. eexists. split; [reflexivity|].
      right; right; left; reflexivity.
    + intros H; injection H as <-. left; reflexivity.
  - intros H; injection H as <-.
    right; right; right. eexists. split; [reflexivity|].
    right; left; reflexivity.
Qed.



(** The error a call ends with is never one of the catalog's. *)
Lemma fetch_error_kind (w : World) (time : Z) (moods : list jsstring)
    (e : Thrown) :
  fetch w time moods = inl e ->
  exists kind message,
    e = ErrorObj kind message
    /\ kind <> CatalogUnavailable /\ kind <> CatalogRequestError.
Proof.
  unfold fetch, fetchVideoSuggestion.
  destruct (fetchVideoSuggestion_try _ _ _ _ _ _ w time moods)
    as [error|suggestion] eqn:Htry; [|discriminate].
  intros H; injection H as <-.
  assert (Hraised : match error with
                    | NonError => True
                    | ErrorObj kind _ =>
                        kind = NoCandidates \/ kind = OracleResponseInvalid
                        \/ kind = External
                    end).
  { unfold fetchVideoSuggestion_try in Htry.
    destruct (uniqueVideos _ _ w time moods) as [|fallbackVideo others].
    - injection Htry as <-. left; reflexivity.
    - apply select_error in Htry.
      destruct Htry as [->|[->|[[-> _]|(message & -> & _)]]]; auto. }
  destruct error as [kind message|].
  - destruct (relabel (ErrorObj kind message)) as [kind' message'|] eqn:Hre.
    + exists kind', message'. split; [reflexivity|].
      destruct (relabel_kind _ _ _ _ Hre) as [[-> _]|[->|[->| ->]]];
        try (split; discriminate).
      destruct Hraised as [->|[->| ->]]; split; discriminate.
    + unfold relabel in Hre.
      repeat match type of Hre with
             | (if ?c then _ else _) = _ => destruct c
             end; discriminate.
  - eexists; eexists. split; [reflexivity|]. split; discriminate.
Qed.

End PipelineFacts.





(** C8: [fetchVideoSuggestion] fails with the [NoCandidates] error exactly
    when no candidate is left after all the searches; the error it ends with
    is never one that a search raised; and the searches that failed count as
    searches that found nothing, the others being merged in order. *)
Theorem NoCandidates_iff_none (YOUTUBE_API_KEY : jsstring)
    (JSON_parse : jsstring -> option JsonValue)
    (msg_trim_of_undefined msg_property_of_null msg_match_of_undefined
     msg_no_primitive : jsstring)
    (w : World) (time : Z) (moods : list jsstring) :
  ((exists message,
      fetchVideoSuggestion YOUTUBE_API_KEY JSON_parse msg_trim_of_undefined
        msg_property_of_null msg_match_of_undefined msg_no_primitive w time
            moods
      = inl (ErrorObj NoCandidates message))
   <-> uniqueVideos YOUTUBE_API_KEY msg_match_of_undefined w time moods = [])
  /\ (forall kind message,
        fetchVideoSuggestion YOUTUBE_API_KEY JSON_parse msg_trim_of_undefined
          msg_property_of_null msg_match_of_undefined msg_no_primitive w time
              moods
        = inl (ErrorObj kind message) ->
        kind <> CatalogUnavailable /\ kind <> CatalogRequestError)
  /\ allVideos YOUTUBE_API_KEY msg_match_of_undefined w time moods
     = List.concat
         (mapi (fun mood j =>
                  found (searchVideos msg_match_of_undefined (youtube w j)
                      (searchQuery mood)
                           YOUTUBE_API_KEY (Some 15)
                           (Some (band_min (getDurationRange time)))
                           (Some (band_max (getDurationRange time)))))
               moods 0%nat).
Proof.
  split; [|split].
  - unfold fetchVideoSuggestion, fetchVideoSuggestion_try.
    destruct (uniqueVideos YOUTUBE_API_KEY msg_match_of_undefined w time moods)
      as [|fallbackVideo others].
    + split; [reflexivity|]. intros _. exists msg_NoCandidates.
      rewrite relabel_NoCandidates. reflexivity.
    + split; [|discriminate]. intros [message H]. exfalso.
      destruct (select _ _ _ _ w time moods fallbackVideo _)
        as [error|suggestion] eqn:Hselect; [|discriminate].
      apply select_error in Hselect. injection H as H.
      destruct Hselect as [->|[->|[[-> _]|(message' & -> & _)]]].
      * rewrite relabel_InvalidJson in H. discriminate H.
      * rewrite relabel_NoSelection in H. discriminate H.
      * discriminate H.
      * apply relabel_kind in H.
        destruct H as [[H _]|[H|[H|H]]]; discriminate H.
  - intros kind message H. apply fetch_error_kind in H.
    destruct H as (kind' & message' & Heq & Hkind). injection Heq as -> ->.
    exact Hkind.
  - apply allVideos_searches.
Qed.

Lemma NoCandidates_iff_none_witness :
  let w := {| youtube := fun _ => catalog_refusing;
              gemini := fun _ => OracleResponds None |} in
  uniqueVideos (lit "key") v8_match_of_undefined w 15 [mood_curious; lit
      "Calm"] = []
  /\ exists message,
       fetchVideoSuggestion (lit "key") (parse_known []) v8_trim_of_undefined
         v8_property_of_null v8_match_of_undefined v8_no_primitive w 15
             [mood_curious; lit "Calm"]
       = inl (ErrorObj NoCandidates message).
Proof.
  intros w. split; [reflexivity|].
  apply (proj1 (NoCandidates_iff_none (lit "key") (parse_known [])
                  v8_trim_of_undefined v8_property_of_null
                      v8_match_of_undefined v8_no_primitive w 15
                  [mood_curious; lit "Calm"])).
  reflexivity.
Defined.


Lemma read_selection_not_null (msg_property_of_null msg_no_primitive : jsstring)
    (time : Z) (fallbackVideo : YouTubeVideoData)
    (candidates : list YouTubeVideoData) (selectionData : JsonValue) :
  selectionData <> JNull ->
  read_selection msg_property_of_null msg_no_primitive time fallbackVideo
    candidates selectionData
  = reconcile msg_no_primitive time fallbackVideo candidates selectionData.
Proof.
  intros Hnotnull. destruct selectionData; try reflexivity.
  contradiction Hnotnull. reflexivity.
Qed.

Lemma find_no_candidate (candidates : list YouTubeVideoData)
    (selected : option JsonValue) :
  (forall v, In v candidates -> selected <> Some (JString (videoId v))) ->
  find (fun v => strict_eq (videoId v) selected) candidates = None.
Proof.
  intros Hnone.
  destruct (find _ candidates) as [v|] eqn:Hfind; [|reflexivity].
  apply find_some in Hfind. destruct Hfind as [Hin Heq]. exfalso.
  apply (Hnone v Hin). unfold strict_eq in Heq.
  destruct selected as [[| | |id| |]|]; try discriminate Heq.
  apply jsstring_eqb_eq in Heq. subst id. reflexivity.
Qed.

(** The suggestion of the fallback path. *)
Lemma reconcile_fallback (msg_no_primitive : jsstring) (time : Z)
    (first : YouTubeVideoData) (candidates : list YouTubeVideoData)
    (selectionData : JsonValue) :
  let selected := get_prop selectionData (lit "selectedVideoId") in
  let tags := get_prop selectionData (lit "tags") in
  let summary := get_prop selectionData (lit "promotionalSummary") in
  truthy selected = true ->
  (forall v, selected = Some v -> stringifiable v = true) ->
  (forall v, In v candidates -> selected <> Some (JString (videoId v))) ->
  reconcile msg_no_primitive time first candidates selectionData
  = inr {| vs_title := title first;
           vs_youtubeUrl := watchUrl (videoId first);
           vs_thumbnailUrl := thumbnailUrl first;
           vs_channelName := channelName first;
           vs_duration := durationFormatted first;
           vs_tags :=
             if truthy tags
             then match tags with Some t => t | None => JArray [] end
             else JArray [];
           vs_promotionalSummary :=
             if truthy summary then summary
             else Some (JString (genericSummary time)) |}.
Proof.
  intros selected tags summary Hselected Hconverts Hnone.
  unfold reconcile. fold selected tags summary.
  rewrite Hselected. cbn [negb].
  rewrite (find_no_candidate _ _ Hnone).
  destruct selected as [v|] eqn:Hv; [|reflexivity].
  rewrite (Hconverts v eq_refl). reflexivity.
Qed.


(** C5, as the code has it: when there are candidates and the reply names,
    as [selectedVideoId], something truthy (so not the empty string) that
    converts to a string, as every string does, and is the identity of none
    of the candidates, the call does not fail: the suggestion is put
    together from the first candidate, with the tags and the summary of the
    reply where it has them, no tags where it has none, and the sentence
    about the target duration where it has no summary. *)
Theorem fallback_to_first_candidate (YOUTUBE_API_KEY : jsstring)
    (JSON_parse : jsstring -> option JsonValue)
    (msg_trim_of_undefined msg_property_of_null msg_match_of_undefined
     msg_no_primitive : jsstring)
    (w : World) (time : Z) (moods : list jsstring)
    (first : YouTubeVideoData) (others : list YouTubeVideoData)
    (text : jsstring) (selectionData : JsonValue) :
  let selected := get_prop selectionData (lit "selectedVideoId") in
  let tags := get_prop selectionData (lit "tags") in
  let summary := get_prop selectionData (lit "promotionalSummary") in
  uniqueVideos YOUTUBE_API_KEY msg_match_of_undefined w time moods
  = first :: others ->
  gemini w (selectionPrompt time moods (first :: others))
  = OracleResponds (Some text) ->
  JSON_parse (trim text) = Some selectionData ->
  truthy selected = true ->
  (forall v, selected = Some v -> stringifiable v = true) ->
  (forall v, In v (first :: others) -> selected <> Some (JString (videoId v))) ->
  exists s,
    fetchVideoSuggestion YOUTUBE_API_KEY JSON_parse msg_trim_of_undefined
      msg_property_of_null msg_match_of_undefined msg_no_primitive
      w time moods = inr s
    /\ vs_title s = title first
    /\ vs_youtubeUrl s = watchUrl (videoId first)
    /\ vs_thumbnailUrl s = thumbnailUrl first
    /\ vs_channelName s = channelName first
    /\ vs_duration s = durationFormatted first
    /\ (truthy tags = true -> Some (vs_tags s) = tags)
    /\ (truthy tags = false -> vs_tags s = JArray [])
    /\ (truthy summary = true -> vs_promotionalSummary s = summary)
    /\ (truthy summary = false ->
        vs_promotionalSummary s = Some (JString (genericSummary time))).
Proof.
  intros selected tags summary Hunique Horacle Hparse Hselected Hconverts
    Hnone.
  unfold fetchVideoSuggestion, fetchVideoSuggestion_try.
  rewrite Hunique. unfold select. rewrite Horacle, Hparse.
  assert (Hnotnull : selectionData <> JNull).
  { intros ->. discriminate Hselected. }
  eexists. split.
  - rewrite (read_selection_not_null _ _ _ _ _ _ Hnotnull).
    rewrite (reconcile_fallback msg_no_primitive time first (first :: others)
               selectionData Hselected Hconverts Hnone).
    reflexivity.
  - cbn [vs_title vs_youtubeUrl vs_thumbnailUrl vs_channelName vs_duration
         vs_tags vs_promotionalSummary].
    fold tags summary.
    repeat split.
    + intros Ht. rewrite Ht. destruct tags; [reflexivity | discriminate Ht].
    + intros Ht. rewrite Ht. reflexivity.
    + intros Hs. rewrite Hs. reflexivity.
    + intros Hs. rewrite Hs. reflexivity.
Qed.

Lemma fallback_to_first_candidate_witness :
  let w := world [item "aaaaaaaaaa1" "First" "PT14M32S";
                  item "bbbbbbbbbb2" "Second" "PT20M"]
             (reply_id_tags "zzzzzzzzzzz") in
  let parse := parse_known [(reply_id_tags "zzzzzzzzzzz",
                             reply_id_tags_value "zzzzzzzzzzz")] in
  exists s,
    fetchVideoSuggestion (lit "key") parse v8_trim_of_undefined
      v8_property_of_null v8_match_of_undefined v8_no_primitive
      w 15 [mood_curious] = inr s
    /\ vs_title s = lit "First"
    /\ vs_youtubeUrl s = lit "https://www.youtube.com/watch?v=aaaaaaaaaa1"
    /\ vs_tags s = three_tags
    /\ vs_promotionalSummary s
       = Some (JString (lit "A perfect 15-minute video for your current mood.")).
Proof.
  intros w parse.
  pose (first := video "aaaaaaaaaa1" "First" "PT14M32S").
  pose (others := [video "bbbbbbbbbb2" "Second" "PT20M"]).
  assert (Hnone : forall v, In v (first :: others) ->
            get_prop (reply_id_tags_value "zzzzzzzzzzz") (lit "selectedVideoId")
            <> Some (JString (videoId v))).
  { intros v [<-|[<-|[]]]; vm_compute; intros H; discriminate H. }
  assert (Hconverts : forall v,
            get_prop (reply_id_tags_value "zzzzzzzzzzz") (lit "selectedVideoId")
            = Some v -> stringifiable v = true).
  { intros v H. vm_compute in H. injection H as <-. reflexivity. }
  destruct (fallback_to_first_candidate (lit "key") parse
              v8_trim_of_undefined v8_property_of_null v8_match_of_undefined
              v8_no_primitive w 15 [mood_curious]
              first others (reply_id_tags "zzzzzzzzzzz")
              (reply_id_tags_value "zzzzzzzzzzz")
              eq_refl eq_refl eq_refl eq_refl Hconverts Hnone)
    as (s & Hs & Htitle & Hurl & _ & _ & _ & Htags & _ & _ & Hsummary).
  exists s. split; [exact Hs|]. split; [exact Htitle|]. split; [exact Hurl|].
  split.
  - specialize (Htags eq_refl). injection Htags as ->. reflexivity.
  - apply Hsummary. reflexivity.
Defined.

(** C5 as the specification words it fails when the identity selected is
    the empty string: it is the identity of no candidate, and the call
    fails. *)
Lemma empty_selection_fails :
  let w := world [item "aaaaaaaaaa1" "First" "PT14M32S";
                  item "bbbbbbbbbb2" "Second" "PT20M"]
             (reply_id_tags EmptyString) in
  let parse := parse_known [(reply_id_tags EmptyString,
                             reply_id_tags_value EmptyString)] in
  get_prop (reply_id_tags_value EmptyString) (lit "selectedVideoId")
  = Some (JString [])
  /\ map videoId (uniqueVideos (lit "key") v8_match_of_undefined w 15
                    [mood_curious])
     = [lit "aaaaaaaaaa1"; lit "bbbbbbbbbb2"]
  /\ fetchVideoSuggestion (lit "key") parse v8_trim_of_undefined
       v8_property_of_null v8_match_of_undefined v8_no_primitive
       w 15 [mood_curious]
     = inl (ErrorObj OracleResponseInvalid msg_NoSelection).
Proof.
  intros w parse. split; [reflexivity|]. split; [reflexivity|].
  vm_compute. reflexivity.
Qed.





(** ** Search queries *)

Lemma word_not_space (c : N) : is_word c = true -> is_space c = false.
Proof.
  intros Hw.
  assert (Hrange : (48 <= c <= 122)%N).
  { unfold is_word, is_digit in Hw.
    destruct (N.leb_spec 65 c), (N.leb_spec c 90), (N.leb_spec 97 c),
      (N.leb_spec c 122), (N.leb_spec 48 c), (N.leb_spec c 57),
      (N.eqb_spec c 95); cbn in Hw; try discriminate Hw; lia. }
  unfold is_space.
  repeat match goal with
         | |- context [(?a <=? ?b)%N] =>
             replace (a <=? b)%N with false
               by (symmetry; apply N.leb_gt; lia)
         | |- context [(?a =? ?b)%N] =>
             replace (a =? b)%N with false
               by (symmetry; apply N.eqb_neq; lia)
         end.
  rewrite ?andb_false_r. reflexivity.
Qed.

Lemma trimStart_split (s : jsstring) :
  exists pre, forallb is_space pre = true /\ s = pre ++ trimStart s.
Proof.
  induction s as [|c r IH]; cbn [trimStart].
  - exists []. split; reflexivity.
  - destruct (is_space c) eqn:Hc.
    + destruct IH as (pre & Hpre & Hr). exists (c :: pre). split.
      * cbn [forallb]. rewrite Hc, Hpre. reflexivity.
      * cbn [app]. rewrite <- Hr. reflexivity.
    + exists []. split; reflexivity.
Qed.

Lemma trimStart_head (s : jsstring) (c : N) :
  hd_error (trimStart s) = Some c -> is_space c = false.
Proof.
  induction s as [|d r IH]; cbn [trimStart].
  - discriminate.
  - destruct (is_space d) eqn:Hd; [exact IH|].
    cbn [hd_error]. intros H; injection H as <-. exact Hd.
Qed.

Lemma trimStart_spaces (s : jsstring) :
  forallb is_space s = true -> trimStart s = [].
Proof.
  induction s as [|c r IH]; cbn [forallb trimStart]; [reflexivity|].
  intros H. apply andb_true_iff in H. destruct H as [Hc Hr].
  rewrite Hc. apply IH. exact Hr.
Qed.

Lemma forallb_rev {A : Type} (p : A -> bool) (l : list A) :
  forallb p l = true -> forallb p (rev l) = true.
Proof.
  rewrite !forallb_forall. intros H x Hx. apply H. apply in_rev. exact Hx.
Qed.

Lemma trim_split (s : jsstring) :
  exists pre post,
    forallb is_space pre = true /\ forallb is_space post = true
    /\ s = pre ++ trim s ++ post.
Proof.
  destruct (trimStart_split s) as (pre & Hpre & Hs).
  destruct (trimStart_split (rev (trimStart s))) as (erp & Herp & Hrev).
  exists pre, (rev erp). split; [exact Hpre|].
  split; [apply forallb_rev; exact Herp|].
  unfold trim, trimEnd. rewrite <- rev_app_distr, <- Hrev, rev_involutive.
  exact Hs.
Qed.

Lemma trim_head (s : jsstring) (c : N) :
  hd_error (trim s) = Some c -> is_space c = false.
Proof.
  intros H. apply (trimStart_head s).
  destruct (trimStart_split (rev (trimStart s))) as (erp & _ & Hrev).
  apply (f_equal (@rev N)) in Hrev.
  rewrite rev_involutive, rev_app_distr in Hrev.
  fold (trimEnd (trimStart s)) in Hrev. fold (trim s) in Hrev.
  rewrite Hrev. destruct (trim s) as [|d r]; [discriminate H|].
  exact H.
Qed.

Lemma trim_last (s : jsstring) (c : N) :
  hd_error (rev (trim s)) = Some c -> is_space c = false.
Proof.
  unfold trim, trimEnd. rewrite rev_involutive. apply trimStart_head.
Qed.

Lemma cleanMood_empty_iff (mood : jsstring) :
  cleanMood mood = [] <-> existsb is_word mood = false.
Proof.
  unfold cleanMood.
  set (kept := filter (fun c => is_word c || is_space c) mood).
  split.
  - intros Hempty.
    destruct (existsb is_word mood) eqn:Hex; [exfalso|reflexivity].
    apply existsb_exists in Hex. destruct Hex as (c & Hin & Hw).
    assert (Hkept : In c kept).
    { apply filter_In. split; [exact Hin|]. rewrite Hw. reflexivity. }
    destruct (trim_split kept) as (pre & post & Hpre & Hpost & Hsplit).
    rewrite Hempty in Hsplit. cbn [app] in Hsplit.
    rewrite Hsplit in Hkept. apply in_app_or in Hkept.
    pose proof (word_not_space c Hw) as Hns.
    rewrite forallb_forall in Hpre, Hpost.
    destruct Hkept as [Hc|Hc];
      [apply Hpre in Hc | apply Hpost in Hc]; congruence.
  - intros Hno.
    assert (Hall : forallb is_space kept = true).
    { apply forallb_forall. intros c Hc. apply filter_In in Hc.
      destruct Hc as [Hin Hkeep].
      destruct (is_word c) eqn:Hw; [|exact Hkeep].
      exfalso. assert (Hex : existsb is_word mood = true).
      { apply existsb_exists. exists c. split; assumption. }
      congruence. }
    unfold trim. rewrite (trimStart_spaces _ Hall). reflexivity.
Qed.

(** C9, as the code has it: the query for a mood is its label without the
    characters that are neither word characters ([A-Za-z0-9_]) nor white
    space, and without the white space left at either end; the label itself
    when it has no word character.  Every mood gives one search, for its
    query, for 15 results within the band of the target. *)
Theorem searchQuery_trimmed_shared_band (YOUTUBE_API_KEY : jsstring)
    (msg_match_of_undefined : jsstring)
    (w : World) (time : Z) (moods : list jsstring) :
  (forall mood,
     (exists pre post,
        forallb is_space pre = true /\ forallb is_space post = true
        /\ filter (fun c => is_word c || is_space c) mood
           = pre ++ cleanMood mood ++ post)
     /\ (forall c, hd_error (cleanMood mood) = Some c -> is_space c = false)
     /\ (forall c, hd_error (rev (cleanMood mood)) = Some c ->
                   is_space c = false)
     /\ searchQuery mood
        = if existsb is_word mood then cleanMood mood else mood)
  /\ allVideos YOUTUBE_API_KEY msg_match_of_undefined w time moods
     = List.concat
         (mapi (fun mood j =>
                  found (searchVideos msg_match_of_undefined (youtube w j)
                      (searchQuery mood)
                           YOUTUBE_API_KEY (Some 15)
                           (Some (band_min (getDurationRange time)))
                           (Some (band_max (getDurationRange time)))))
               moods 0%nat).
Proof.
  split; [|apply allVideos_searches].
  intros mood. split; [|split; [|split]].
  - apply trim_split.
  - apply trim_head.
  - apply trim_last.
  - unfold searchQuery.
    destruct (existsb is_word mood) eqn:Hex.
    + destruct (cleanMood mood) as [|c r] eqn:Hclean; [|reflexivity].
      apply cleanMood_empty_iff in Hclean. congruence.
    + apply cleanMood_empty_iff in Hex. rewrite Hex. reflexivity.
Qed.

Lemma searchQuery_trimmed_shared_band_witness :
  searchQuery mood_curious = lit "Curious"
  /\ searchQuery (lit "so_so  ") = lit "so_so"
  /\ forall c, hd_error (rev (cleanMood mood_curious)) = Some c ->
               is_space c = false.
Proof.
  split; [|split].
  - rewrite (proj2 (proj2 (proj2 (proj1
               (searchQuery_trimmed_shared_band [] [] (world [] []) 15 [])
               mood_curious)))).
    reflexivity.
  - reflexivity.
  - apply (proj1 (searchQuery_trimmed_shared_band [] [] (world [] []) 15 [])
             mood_curious).
Defined.

(** C9 as the specification words it fails on the default mood of the
    application: stripping leaves [Curious] and a space, and the query sent
    is [Curious]; and a label left with white space only is sent as it
    is. *)
Lemma searchQuery_is_trimmed :
  searchQuery mood_curious = lit "Curious"
  /\ query_spec mood_curious = lit "Curious "
  /\ searchQuery mood_curious <> query_spec mood_curious
  /\ searchQuery (lit " " ++ [55358; 56596]%N) <> query_spec (lit " " ++ [55358; 56596]%N).
Proof.
  repeat split; try reflexivity; vm_compute; intros H; discriminate H.
Qed.

(** * Further properties of the two services *)

(** ** The loop of [searchVideos] *)

Lemma accepted_step (lo hi : option Z) (video : VideoItem)
    (snippet : Snippet) (iso : jsstring) (c : Captures) :
  vi_snippet video = Some snippet ->
  vi_contentDetails video = Some (Some iso) ->
  durationMatch iso = Some c ->
  accepted lo hi video
  = if match lo with Some l => totalSeconds c <? l | None => false end then []
    else if match hi with Some h => h <? totalSeconds c | None => false end
    then [] else [videoData video snippet iso].
Proof.
  intros Hs Hd Hm. unfold accepted, in_range. rewrite Hs, Hd, Hm.
  destruct lo as [l|], hi as [h|];
    repeat match goal with
           | |- context [(?a <? ?b)] => destruct (Z.ltb_spec a b)
           | |- context [(?a <=? ?b)] => destruct (Z.leb_spec a b)
           end; cbn [andb]; try reflexivity; lia.
Qed.

Lemma filterByDuration_accepted (msg : jsstring) (maxResults : Z)
    (lo hi : option Z) (items : list VideoItem) :
  Forall (fun video => lacks_duration video = false) items ->
  forall results, Z.of_nat (List.length results) < maxResults ->
  filterByDuration msg maxResults lo hi items results
  = inr (results ++ firstn (Z.to_nat maxResults - List.length results)
                      (flat_map (accepted lo hi) items)).
Proof.
  induction 1 as [|video rest Hvideo _ IH]; intros results Hroom.
  - cbn [filterByDuration flat_map]. rewrite firstn_nil, List.app_nil_r.
    reflexivity.
  - cbn [filterByDuration flat_map]. unfold lacks_duration in Hvideo.
    destruct (vi_snippet video) as [snippet|] eqn:Hs;
      [|unfold accepted; rewrite Hs; apply IH; exact Hroom].
    destruct (vi_contentDetails video) as [[iso|]|] eqn:Hd;
      [|discriminate Hvideo
       |unfold accepted; rewrite Hs, Hd; apply IH; exact Hroom].
    destruct (durationMatch iso) as [c|] eqn:Hm;
      [|unfold accepted, in_range; rewrite Hs, Hd, Hm; apply IH; exact Hroom].
    rewrite (accepted_step lo hi video snippet iso c Hs Hd Hm).
    destruct (match lo with Some l => totalSeconds c <? l | None => false end);
      [apply IH; exact Hroom|].
    destruct (match hi with Some h => h <? totalSeconds c | None => false end);
      [apply IH; exact Hroom|].
    cbn [app].
    assert (Hlen : List.length (results ++ [videoData video snippet iso])
                   = S (List.length results)).
    { rewrite length_app. cbn [List.length]. lia. }
    rewrite Hlen.
    destruct (Z.leb_spec maxResults (Z.of_nat (S (List.length results))))
      as [Hfull|Hmore].
    + replace (Z.to_nat maxResults - List.length results)%nat with 1%nat by lia.
      cbn [firstn]. reflexivity.
    + rewrite IH by (rewrite Hlen; exact Hmore).
      rewrite Hlen.
      replace (Z.to_nat maxResults - List.length results)%nat
        with (S (Z.to_nat maxResults - S (List.length results)))%nat by lia.
      cbn [firstn]. rewrite <- List.app_assoc. reflexivity.
Qed.

(** The loop throws at the first item that lacks its duration, when it
    gets that far. *)
Lemma filterByDuration_throws (msg : jsstring) (maxResults : Z)
    (lo hi : option Z) (bad : VideoItem) (after : list VideoItem)
    (before : list VideoItem) :
  Forall (fun video => lacks_duration video = false) before ->
  lacks_duration bad = true ->
  forall results,
  Z.of_nat (List.length results
            + List.length (flat_map (accepted lo hi) before)) < maxResults ->
  filterByDuration msg maxResults lo hi (before ++ bad :: after) results
  = inl (ErrorObj External msg).
Proof.
  intros Hbefore Hbad.
  induction Hbefore as [|video rest Hvideo _ IH]; intros results Hroom.
  - cbn [app filterByDuration]. unfold lacks_duration in Hbad.
    destruct (vi_snippet bad); [|discriminate Hbad].
    destruct (vi_contentDetails bad) as [[iso|]|];
      [discriminate Hbad | reflexivity | discriminate Hbad].
  - cbn [app filterByDuration]. cbn [flat_map] in Hroom.
    rewrite length_app in Hroom. unfold lacks_duration in Hvideo.
    destruct (vi_snippet video) as [snippet|] eqn:Hs;
      [|apply IH; lia].
    destruct (vi_contentDetails video) as [[iso|]|] eqn:Hd;
      [|discriminate Hvideo|apply IH; lia].
    destruct (durationMatch iso) as [c|] eqn:Hm; [|apply IH; lia].
    rewrite (accepted_step lo hi video snippet iso c Hs Hd Hm) in Hroom.
    destruct (match lo with Some l => totalSeconds c <? l | None => false end);
      [apply IH; lia|].
    destruct (match hi with Some h => h <? totalSeconds c | None => false end);
      [apply IH; lia|].
    cbn [List.length] in Hroom.
    assert (Hlen : List.length (results ++ [videoData video snippet iso])
                   = S (List.length results)).
    { rewrite length_app. cbn [List.length]. lia. }
    rewrite Hlen.
    destruct (Z.leb_spec maxResults (Z.of_nat (S (List.length results))))
      as [Hfull|Hmore]; [lia|].
    apply IH. rewrite Hlen. lia.
Qed.

(** X1: when both requests are answered and [maxResults] is at least 1,
    [searchVideos] returns the first [maxResults] of the items that have a
    snippet and a duration within the bounds, in the order of the answer,
    provided every item that has a snippet and [contentDetails] has its
    duration; and it throws the [TypeError] of the engine when it comes to
    an item that lacks its duration before it has [maxResults] entries.  The
    numbers read from the items are taken to be integers that binary64 holds
    exactly. *)
Theorem searchVideos_first_accepted (msg_match_of_undefined : jsstring)
    (yt : YouTube) (query apiKey : jsstring)
    (maxResults : Z) (lo hi : option Z)
    (hits : list SearchItem) (items : list VideoItem) :
  1 <= maxResults ->
  yt_search yt (searchRequest query apiKey maxResults hi) = Ok (Some hits) ->
  usable_ids hits <> [] ->
  yt_videos yt (join (lit ",") (usable_ids hits)) apiKey = Ok (Some items) ->
  Forall exact_item items ->
  let result :=
    searchVideos msg_match_of_undefined yt query apiKey (Some maxResults)
      lo hi in
  (Forall (fun video => lacks_duration video = false) items ->
   result
   = inr (firstn (Z.to_nat maxResults) (flat_map (accepted lo hi) items)))
  /\ (forall before bad after,
        items = before ++ bad :: after ->
        Forall (fun video => lacks_duration video = false) before ->
        lacks_duration bad = true ->
        Z.of_nat (List.length (flat_map (accepted lo hi) before))
        < maxResults ->
        result = inl (ErrorObj External msg_match_of_undefined)).
Proof.
  intros Hcap Hsearch Hids Hvideos _ result. subst result.
  unfold searchVideos, searchVideos_try. rewrite Hsearch.
  destruct hits as [|hit hits]; [contradiction Hids; reflexivity|].
  fold (usable_ids (hit :: hits)).
  destruct (usable_ids (hit :: hits)) as [|id ids] eqn:Hu;
    [contradiction Hids; reflexivity|].
  rewrite Hvideos. split.
  - intros Hitems. destruct items as [|d ds].
    + cbn [flat_map]. rewrite firstn_nil. reflexivity.
    + rewrite filterByDuration_accepted
        by (exact Hitems || (cbn [List.length]; lia)).
      cbn [app List.length]. rewrite Nat.sub_0_r. reflexivity.
  - intros before bad after -> Hbefore Hbad Hroom.
    rewrite filterByDuration_throws
      by (assumption || (cbn [List.length]; lia)).
    destruct (before ++ bad :: after) eqn:Hitems; [|reflexivity].
    destruct before; discriminate Hitems.
Qed.

Lemma searchVideos_first_accepted_witness :
  let items := [item "aaaaaaaaaa1" "First" "PT14M32S";
                item "bbbbbbbbbb2" "Second" "PT50M";
                item "cccccccccc3" "Third" "PT20M";
                item "dddddddddd4" "Fourth" "PT25M"] in
  let broken := [item "aaaaaaaaaa1" "First" "PT14M32S";
                 item_without_duration "bbbbbbbbbb2" "Second";
                 item "cccccccccc3" "Third" "PT20M"] in
  searchVideos v8_match_of_undefined (catalog items) (lit "calm") (lit "key")
    (Some 2) (Some 720) (Some 1800)
  = inr [video "aaaaaaaaaa1" "First" "PT14M32S";
         video "cccccccccc3" "Third" "PT20M"]
  /\ searchVideos v8_match_of_undefined (catalog broken) (lit "calm")
       (lit "key") (Some 2) (Some 720) (Some 1800)
     = inl (ErrorObj External v8_match_of_undefined).
Proof.
  intros items broken. split.
  - rewrite (proj1 (searchVideos_first_accepted v8_match_of_undefined
                      (catalog items) (lit "calm") (lit "key") 2 (Some 720)
                      (Some 1800) (map (fun v => Some (vi_id v)) items) items
                      ltac:(lia) eq_refl ltac:(discriminate) eq_refl
                      ltac:(repeat constructor; vm_compute; discriminate))).
    + reflexivity.
    + repeat constructor.
  - apply (proj2 (searchVideos_first_accepted v8_match_of_undefined
                    (catalog broken) (lit "calm") (lit "key") 2 (Some 720)
                    (Some 1800) (map (fun v => Some (vi_id v)) broken) broken
                    ltac:(lia) eq_refl ltac:(discriminate) eq_refl
                    ltac:(repeat constructor; vm_compute; discriminate))
             [item "aaaaaaaaaa1" "First" "PT14M32S"]
             (item_without_duration "bbbbbbbbbb2" "Second")
             [item "cccccccccc3" "Third" "PT20M"]).
    + reflexivity.
    + repeat constructor.
    + reflexivity.
    + vm_compute. reflexivity.
Defined.

(** X2: an error of [searchVideos] is always an [Error] object, one of its
    own or one passed on from [fetch]; it is the quota error exactly when the
    search request is answered outside 2xx with 403 as the [code] of the JSON
    body, or, when the body cannot be read, as the status.  A 403 whose body
    has no top-level [code] is reported as a plain search error. *)
Theorem searchVideos_errors (msg_match_of_undefined : jsstring)
    (yt : YouTube) (query apiKey : jsstring)
    (maxResults : Z) (lo hi : option Z) :
  let request := searchRequest query apiKey maxResults hi in
  (forall e,
     searchVideos msg_match_of_undefined yt query apiKey (Some maxResults) lo
         hi = inl e ->
     exists kind message,
       e = ErrorObj kind message
       /\ (kind = CatalogUnavailable \/ kind = CatalogRequestError
           \/ kind = External))
  /\ ((exists message,
         searchVideos msg_match_of_undefined yt query apiKey (Some maxResults)
             lo hi
         = inl (ErrorObj CatalogUnavailable message))
      <-> exists status statusText body,
            yt_search yt request = NotOk status statusText body
            /\ code_is (errorData_of status statusText body) 403 = true)
  /\ (forall status statusText message,
        yt_search yt request
        = NotOk status statusText
            (Some {| ed_code := None; ed_message := message |}) ->
        searchVideos msg_match_of_undefined yt query apiKey (Some maxResults)
            lo hi
        = inl (ErrorObj CatalogRequestError
                 (lit "YouTube Search API error: "
                    ++ str_or message statusText))).
Proof.
  intros request. subst request.
  unfold searchVideos, searchVideos_try, code_is, errorData_of.
  destruct (yt_search yt _) as [f|status statusText body|[[|hit hits]|]].
  - split; [|split].
    + intros e H. destruct f as [m|]; injection H as <-;
        eexists; eexists; (split; [reflexivity|]); auto.
    + split.
      * intros [message H]. destruct f; discriminate H.
      * intros (st & tx & b & H & _). discriminate H.
    + intros st tx m H. discriminate H.
  - destruct (match ed_code _ with Some c => c =? 403 | None => false end)
      eqn:Hcode.
    + split; [|split].
      * intros e H. injection H as <-. eexists; eexists.
        split; [reflexivity|]. auto.
      * split.
        -- intros _. exists status, statusText, body. split; [reflexivity|].
           exact Hcode.
        -- intros _. eexists. reflexivity.
      * intros st tx m H. injection H as -> -> ->. discriminate Hcode.
    + split; [|split].
      * intros e H. injection H as <-. eexists; eexists.
        split; [reflexivity|]. auto.
      * split.
        -- intros [message H]. discriminate H.
        -- intros (st & tx & b & H & Hc). injection H as -> -> ->. congruence.
      * intros st tx m H. injection H as -> -> ->. reflexivity.
  - split; [|split]; [discriminate| |discriminate].
    split; [intros [m H]; discriminate H | intros (st & tx & b & H & _); discriminate H].
  - destruct (flat_map _ (hit :: hits)) as [|id ids].
    + split; [|split]; [discriminate| |discriminate].
      split; [intros [m H]; discriminate H
             | intros (st & tx & b & H & _); discriminate H].
    + destruct (yt_videos yt _ apiKey) as [f|s t b|[[|d ds]|]].
      * split; [|split]; [| |discriminate].
        -- intros e H. destruct f as [m|]; injection H as <-;
             eexists; eexists; (split; [reflexivity|]); auto.
        -- split; [intros [m H]; destruct f; discriminate H
                  | intros (st & tx & b & H & _); discriminate H].
      * split; [|split]; [| |discriminate].
        -- intros e H. injection H as <-. eexists; eexists.
           split; [reflexivity|]. auto.
        -- split; [intros [m H]; discriminate H
                  | intros (st & tx & b' & H & _); discriminate H].
      * split; [|split]; [discriminate| |discriminate].
        split; [intros [m H]; discriminate H
               | intros (st & tx & b & H & _); discriminate H].
      * destruct (filterByDuration _ maxResults lo hi (d :: ds) [])
          as [e|videos] eqn:Hloop.
        -- apply filterByDuration_error in Hloop. subst e.
           split; [|split]; [| |discriminate].
           ++ intros e H. injection H as <-. eexists; eexists.
              split; [reflexivity|]. auto.
           ++ split; [intros [m H]; discriminate H
                     | intros (st & tx & b & H & _); discriminate H].
        -- split; [|split]; [discriminate| |discriminate].
           split; [intros [m H]; discriminate H
                  | intros (st & tx & b & H & _); discriminate H].
      * split; [|split]; [discriminate| |discriminate].
        split; [intros [m H]; discriminate H
               | intros (st & tx & b & H & _); discriminate H].
  - split; [|split]; [discriminate| |discriminate].
    split; [intros [m H]; discriminate H | intros (st & tx & b & H & _); discriminate H].
Qed.

Lemma searchVideos_errors_witness :
  (exists message,
     searchVideos v8_match_of_undefined catalog_refusing (lit "calm") (lit
         "key") (Some 15) None None
     = inl (ErrorObj CatalogUnavailable message))
  /\ searchVideos v8_match_of_undefined
       {| yt_search := fun _ =>
            NotOk 403 (lit "Forbidden")
              (Some {| ed_code := None; ed_message := None |});
          yt_videos := fun _ _ => Ok None |}
       (lit "calm") (lit "key") (Some 15) None None
     = inl (ErrorObj CatalogRequestError
              (lit "YouTube Search API error: Forbidden")).
Proof.
  split.
  - apply (proj1 (proj2 (searchVideos_errors v8_match_of_undefined
                           catalog_refusing (lit "calm")
                           (lit "key") 15 None None))).
    eexists; eexists; eexists. split; reflexivity.
  - apply (proj2 (proj2 (searchVideos_errors v8_match_of_undefined _ (lit
      "calm") (lit "key") 15
                           None None)) 403 (lit "Forbidden") None).
    reflexivity.
Defined.

(** X3: when the search is answered without [items], with none, or with
    hits none of which has a [videoId], [searchVideos] returns the empty list
    and does not depend on the details endpoint. *)
Theorem searchVideos_no_hits (msg_match_of_undefined : jsstring)
    (yt : YouTube) (query apiKey : jsstring)
    (maxResults : Z) (lo hi : option Z) (hits : option (list SearchItem)) :
  yt_search yt (searchRequest query apiKey maxResults hi) = Ok hits ->
  usable_ids (match hits with Some l => l | None => [] end) = [] ->
  forall videos : jsstring -> jsstring -> Http (option (list VideoItem)),
  searchVideos msg_match_of_undefined
    {| yt_search := yt_search yt; yt_videos := videos |}
    query apiKey (Some maxResults) lo hi = inr [].
Proof.
  intros Hsearch Hids videos. unfold searchVideos, searchVideos_try.
  cbn [yt_search yt_videos]. rewrite Hsearch.
  destruct hits as [[|hit hits]|]; try reflexivity.
  fold (usable_ids (hit :: hits)). rewrite Hids. reflexivity.
Qed.

Lemma searchVideos_no_hits_witness :
  searchVideos v8_match_of_undefined
    {| yt_search := fun _ => Ok (Some [None; Some []]);
       yt_videos := fun _ _ => Rejected ForeignValue |}
    (lit "calm") (lit "key") (Some 15) None None = inr [].
Proof.
  apply (searchVideos_no_hits v8_match_of_undefined
           {| yt_search := fun _ => Ok (Some [None; Some []]);
              yt_videos := fun _ _ => Ok None |}
           (lit "calm") (lit "key") 15 None None (Some [None; Some []]));
    reflexivity.
Defined.

(** ** The band and the duration hint *)

(** X4: for a target from 5 to 120 minutes, the [videoDuration] hint that
    the pipeline's searches send is never [short]: it is [medium] for
    targets up to 10 and [long] above. *)
Theorem videoDuration_hint (query apiKey : jsstring) (target : Z) :
  5 <= target <= 120 ->
  sr_videoDuration
    (searchRequest query apiKey 15 (Some (band_max (getDurationRange target))))
  = if target <=? 10 then vd_medium else vd_long.
Proof.
  intros Ht. rewrite getDurationRange_day by lia.
  cbn [searchRequest sr_videoDuration getDurationRange_spec band_max].
  destruct (Z.leb_spec (target * 2 * 60) 240); [lia|].
  destruct (Z.leb_spec (target * 2 * 60) 1200);
    destruct (Z.leb_spec target 10); try reflexivity; lia.
Qed.

Lemma videoDuration_hint_witness :
  5 <= 15 <= 120
  /\ sr_videoDuration
       (searchRequest (lit "calm") (lit "key") 15
          (Some (band_max (getDurationRange 15))))
     = vd_long.
Proof.
  split; [lia|].
  apply (videoDuration_hint (lit "calm") (lit "key") 15). lia.
Defined.

(** X6: for a target from 1 to 1440 minutes the band is not empty and the
    target itself, in seconds, lies in it. *)
Theorem band_holds_target (target : Z) :
  1 <= target <= 1440 ->
  band_min (getDurationRange target) <= minutesToSeconds target
  /\ minutesToSeconds target < band_max (getDurationRange target).
Proof.
  intros Ht. rewrite getDurationRange_day by lia.
  unfold minutesToSeconds. cbn [getDurationRange_spec band_min band_max].
  assert (Hdiv : (target * 8 * 60) / 10 = target * 48).
  { replace (target * 8 * 60) with (target * 48 * 10) by lia.
    apply Z.div_mul. lia. }
  rewrite Hdiv. lia.
Qed.

Lemma band_holds_target_witness :
  1 <= 5 <= 1440
  /\ band_min (getDurationRange 5) <= minutesToSeconds 5
  /\ minutesToSeconds 5 < band_max (getDurationRange 5).
Proof.
  split; [lia|]. apply (band_holds_target 5). lia.
Defined.

(** ** Reading durations and counts *)

(** X5: [searchVideos] reads a duration [PT#H#M#S] as
    [3600*hours + 60*minutes + seconds], a missing component counting as 0
    (for totals that binary64 holds exactly), and keeps the entry exactly
    when this lies between the bounds. *)
Theorem totalSeconds_iso (h m s : option N) :
  (3600 * or_zero h + 60 * or_zero m + or_zero s <= MAX_SAFE_INTEGER)%N ->
  let total := Z.of_N (3600 * or_zero h + 60 * or_zero m + or_zero s) in
  (exists c, durationMatch (iso_duration h m s) = Some c
             /\ totalSeconds c = total)
  /\ forall lo hi,
       in_range (Some lo) (Some hi) (iso_duration h m s)
       = (lo <=? total) && (total <=? hi).
Proof.
  intros _ total.
  assert (Htotal : totalSeconds (option_map toString h, option_map toString m,
                                 option_map toString s) = total).
  { unfold totalSeconds. rewrite !capture_or_toString. subst total. lia. }
  split.
  - eexists. split; [apply durationMatch_iso | exact Htotal].
  - intros lo hi. unfold in_range. rewrite durationMatch_iso, Htotal.
    reflexivity.
Qed.

Lemma totalSeconds_iso_witness :
  in_range (Some 720) (Some 1800) (iso_duration None (Some 14%N) (Some 32%N))
  = (720 <=? 872) && (872 <=? 1800).
Proof.
  apply (proj2 (totalSeconds_iso None (Some 14%N) (Some 32%N)
                  ltac:(vm_compute; discriminate))).
Defined.

Lemma span_digits_all (ds : jsstring) :
  forallb is_digit ds = true -> span_digits ds = (ds, []).
Proof.
  induction ds as [|d r IH]; cbn [forallb span_digits]; [reflexivity|].
  intros H. apply andb_true_iff in H. destruct H as [Hd Hr].
  rewrite Hd, (IH Hr). reflexivity.
Qed.

Lemma digit_not_space (c : N) : is_digit c = true -> is_space c = false.
Proof.
  intros H. apply word_not_space. unfold is_word. rewrite H.
  rewrite orb_true_r. reflexivity.
Qed.

Lemma parseInt10_unsigned (s : jsstring) (d : N) (r : jsstring) :
  trimStart s = d :: r -> is_digit d = true ->
  parseInt10 s
  = match fst (span_digits (d :: r)) with
    | [] => NaN
    | c :: ds => Int (Z.of_N (parseInt_digits (c :: ds)))
    end.
Proof.
  intros Htrim Hd. unfold parseInt10. rewrite Htrim.
  assert (Hsign : (d =? ch "-")%N = false /\ (d =? ch "+")%N = false).
  { unfold is_digit in Hd. apply andb_true_iff in Hd. destruct Hd as [Hlo Hhi].
    apply N.leb_le in Hlo. apply N.leb_le in Hhi.
    change (ch "-") with 45%N. change (ch "+") with 43%N.
    split; apply N.eqb_neq; lia. }
  rewrite (proj1 Hsign), (proj2 Hsign).
  destruct (fst (span_digits (d :: r))); reflexivity.
Qed.

(** X7: [parseInt(s, 10)] reads back the number that [toString] wrote, also
    after leading white space and before any text that does not start with a
    digit; so the [viewCount] of an entry is the number the catalog sent as
    a string. *)
Theorem parseInt10_toString (n : N) (spaces rest : jsstring) :
  (n <= MAX_SAFE_INTEGER)%N ->
  forallb is_space spaces = true ->
  (forall c, hd_error rest = Some c -> is_digit c = false) ->
  parseInt10 (spaces ++ toString n ++ rest) = Int (Z.of_N n)
  /\ forall video snippet duration,
       vi_viewCount video = Some (toString n) ->
       viewCount (videoData video snippet duration) = Some (Int (Z.of_N n)).
Proof.
  intros _ Hspaces Hrest.
  assert (Hparse : forall pre tail,
            forallb is_space pre = true ->
            (forall c, hd_error tail = Some c -> is_digit c = false) ->
            parseInt10 (pre ++ toString n ++ tail) = Int (Z.of_N n)).
  { intros pre tail Hpre Htail.
    assert (Htrim : trimStart (pre ++ toString n ++ tail) = toString n ++ tail).
    { induction pre as [|p r IH]; cbn [app trimStart].
      - destruct (toString_nonempty n) as (d & ds & Hs).
        pose proof (toString_digits n) as Hd. rewrite Hs in *.
        cbn [forallb] in Hd. apply andb_true_iff in Hd.
        cbn [app trimStart]. rewrite (digit_not_space d (proj1 Hd)).
        reflexivity.
      - cbn [forallb] in Hpre. apply andb_true_iff in Hpre.
        rewrite (proj1 Hpre). apply IH. exact (proj2 Hpre). }
    destruct (toString_nonempty n) as (d & ds & Hs).
    pose proof (toString_digits n) as Hd.
    assert (Hspan : fst (span_digits (toString n ++ tail)) = toString n).
    { destruct tail as [|t tl].
      - rewrite List.app_nil_r, (span_digits_all _ Hd). reflexivity.
      - rewrite (span_digits_app _ _ _ Hd (Htail t eq_refl)). reflexivity. }
    assert (Hhead : is_digit d = true).
    { rewrite Hs in Hd. cbn [forallb] in Hd. apply andb_true_iff in Hd.
      exact (proj1 Hd). }
    rewrite (parseInt10_unsigned _ d (ds ++ tail)); [|rewrite Htrim, Hs; reflexivity|exact Hhead].
    change (d :: ds ++ tail) with ((d :: ds) ++ tail).
    rewrite <- Hs, Hspan, Hs, <- Hs, parseInt_toString. reflexivity. }
  split.
  - apply Hparse; assumption.
  - intros video snippet duration Hview. cbn [videoData viewCount].
    rewrite Hview. destruct (toString_nonempty n) as (d & ds & Hs).
    rewrite Hs. rewrite <- Hs.
    specialize (Hparse [] [] eq_refl ltac:(discriminate)).
    cbn [app] in Hparse. rewrite List.app_nil_r in Hparse.
    rewrite Hparse. reflexivity.
Qed.

Lemma parseInt10_toString_witness :
  parseInt10 (lit "  " ++ toString 1000 ++ lit " views") = Int 1000.
Proof.
  apply (proj1 (parseInt10_toString 1000 (lit "  ") (lit " views")
                  ltac:(vm_compute; discriminate) eq_refl
                  ltac:(intros c H; injection H as <-; reflexivity))).
Defined.

(** ** Single and batched lookups *)

(** X8: [validateAndFetchVideoData] returns data exactly when the identity
    has the fixed format, the request is answered within 2xx, and the first
    item of the answer has a snippet and content details with a duration;
    the data are then those of that item, with the duration formatted by
    [formatDuration].  In every other case it throws an [Error]: for an
    identity of another format it does so whatever the catalog would answer,
    and for a first item whose content details have no duration it throws
    the [TypeError] of the engine.  The numbers read from the item are
    taken to be integers that binary64 holds exactly. *)
Theorem validateAndFetchVideoData_returns (msg_match_of_undefined : jsstring)
    (yt : YouTube) (videoId apiKey : jsstring) :
  (forall video others,
     yt_videos yt videoId apiKey = Ok (Some (video :: others)) ->
     exact_item video) ->
  let result :=
    validateAndFetchVideoData msg_match_of_undefined yt videoId apiKey in
  (forall data,
     result = inr data <->
     valid_video_id videoId = true
     /\ exists video others snippet iso,
          yt_videos yt videoId apiKey = Ok (Some (video :: others))
          /\ vi_snippet video = Some snippet
          /\ vi_contentDetails video = Some (Some iso)
          /\ data = videoData video snippet iso)
  /\ (forall data,
        result = inr data ->
        durationFormatted data = formatDuration (duration data))
  /\ (valid_video_id videoId = false ->
      forall yt',
        validateAndFetchVideoData msg_match_of_undefined yt' videoId apiKey
        = inl (ErrorObj InvalidIdentity
                 (lit "Invalid video ID format: " ++ videoId
                    ++ lit ". YouTube video IDs must be exactly 11 characters.")))
  /\ (forall video others snippet,
        valid_video_id videoId = true ->
        yt_videos yt videoId apiKey = Ok (Some (video :: others)) ->
        vi_snippet video = Some snippet ->
        vi_contentDetails video = Some None ->
        result = inl (ErrorObj External msg_match_of_undefined)).
Proof.
  intros _ result. subst result.
  assert (Hiff : forall data,
            validateAndFetchVideoData msg_match_of_undefined yt videoId apiKey
            = inr data <->
            valid_video_id videoId = true
            /\ exists video others snippet iso,
                 yt_videos yt videoId apiKey = Ok (Some (video :: others))
                 /\ vi_snippet video = Some snippet
                 /\ vi_contentDetails video = Some (Some iso)
                 /\ data = videoData video snippet iso).
  { intros data. unfold validateAndFetchVideoData.
    destruct (valid_video_id videoId); cbn [negb].
    2:{ split; [discriminate | intros [H _]; discriminate H]. }
    destruct (yt_videos yt videoId apiKey)
      as [[m|]|status statusText body|[[|video others]|]].
    1,2,4,6: split;
      [discriminate | intros [_ (v & o & sn & iso & H & _)]; discriminate H].
    - split.
      + destruct (code_is _ 403); [discriminate|].
        destruct (code_is _ 404); discriminate.
      + intros [_ (v & o & sn & iso & H & _)]. discriminate H.
    - destruct (vi_snippet video) as [snippet|] eqn:Hs.
      + destruct (vi_contentDetails video) as [[iso|]|] eqn:Hd.
        * split.
          -- intros H. injection H as <-. split; [reflexivity|].
             exists video, others, snippet, iso. auto.
          -- intros [_ (v & o & sn & i & H & Hsn & Hi & ->)].
             injection H as <- <-. rewrite Hs in Hsn. rewrite Hd in Hi.
             injection Hsn as <-. injection Hi as <-. reflexivity.
        * split; [discriminate|].
          intros [_ (v & o & sn & i & H & Hsn & Hi & _)].
          injection H as <- <-. congruence.
        * split; [discriminate|].
          intros [_ (v & o & sn & i & H & Hsn & Hi & _)].
          injection H as <- <-. congruence.
      + split; [discriminate|].
        intros [_ (v & o & sn & i & H & Hsn & Hi & _)].
        injection H as <- <-. congruence. }
  split; [exact Hiff|]. split; [|split].
  - intros data H. apply Hiff in H.
    destruct H as [_ (v & o & sn & iso & _ & _ & _ & ->)]. reflexivity.
  - intros Hinvalid yt'. unfold validateAndFetchVideoData.
    rewrite Hinvalid. reflexivity.
  - intros video others snippet Hvalid Hvideos Hs Hd.
    unfold validateAndFetchVideoData.
    rewrite Hvalid, Hvideos, Hs, Hd. reflexivity.
Qed.

Lemma validateAndFetchVideoData_returns_witness :
  validateAndFetchVideoData v8_match_of_undefined
    (catalog [item "aaaaaaaaaa1" "First" "PT14M32S"])
    (lit "aaaaaaaaaa1") (lit "key")
  = inr (video "aaaaaaaaaa1" "First" "PT14M32S")
  /\ validateAndFetchVideoData v8_match_of_undefined catalog_refusing
       (lit "too short") (lit "key")
     = inl (ErrorObj InvalidIdentity
              (lit "Invalid video ID format: too short. YouTube video IDs must be exactly 11 characters."))
  /\ validateAndFetchVideoData v8_match_of_undefined
       (catalog [item_without_duration "aaaaaaaaaa1" "First"])
       (lit "aaaaaaaaaa1") (lit "key")
     = inl (ErrorObj External v8_match_of_undefined).
Proof.
  split; [|split].
  - apply (proj1 (validateAndFetchVideoData_returns v8_match_of_undefined
                    (catalog [item "aaaaaaaaaa1" "First" "PT14M32S"])
                    (lit "aaaaaaaaaa1") (lit "key")
                    ltac:(intros video others H; injection H as <- _;
                          vm_compute; split; discriminate)) _).
    split; [reflexivity|]. eexists; eexists; eexists; eexists.
    repeat split; reflexivity.
  - apply (proj1 (proj2 (proj2
             (validateAndFetchVideoData_returns v8_match_of_undefined
                catalog_refusing (lit "too short") (lit "key")
                ltac:(intros video others H; discriminate H))))).
    reflexivity.
  - apply (proj2 (proj2 (proj2
             (validateAndFetchVideoData_returns v8_match_of_undefined
                (catalog [item_without_duration "aaaaaaaaaa1" "First"])
                (lit "aaaaaaaaaa1") (lit "key")
                ltac:(intros video others H; injection H as <- _;
                      vm_compute; split; exact I))))
             (item_without_duration "aaaaaaaaaa1" "First") []
             _ eq_refl eq_refl eq_refl eq_refl).
Defined.

Lemma validateVideoIds_loop_batches (yt : YouTube) (videoIds : list jsstring)
    (apiKey : jsstring) (fuel : nat) :
  forall i results,
  validateVideoIds_loop fuel yt videoIds apiKey i results
  = results ++ flat_map (fun batch =>
                  batchResults (yt_videos yt (join (lit ",") batch) apiKey))
                 (batches_from fuel videoIds i).
Proof.
  induction fuel as [|fuel IH]; intros i results;
    cbn [validateVideoIds_loop batches_from].
  - cbn [flat_map]. rewrite List.app_nil_r. reflexivity.
  - destruct (i <? List.length videoIds)%nat.
    + rewrite IH. cbn [flat_map]. rewrite <- List.app_assoc. reflexivity.
    + cbn [flat_map]. rewrite List.app_nil_r. reflexivity.
Qed.

Lemma batches_from_concat (videoIds : list jsstring) (fuel : nat) :
  forall i, (List.length videoIds - i <= fuel)%nat ->
  List.concat (batches_from fuel videoIds i) = skipn i videoIds.
Proof.
  induction fuel as [|fuel IH]; intros i Hfuel; cbn [batches_from].
  - cbn [List.concat]. symmetry. apply skipn_all2. lia.
  - destruct (Nat.ltb_spec i (List.length videoIds)) as [Hlt|Hge].
    + cbn [List.concat]. rewrite IH by (unfold batchSize; lia).
      unfold slice. replace (i + batchSize - i)%nat with batchSize by lia.
      rewrite (Nat.add_comm i batchSize), <- skipn_skipn.
      apply firstn_skipn.
    + cbn [List.concat]. symmetry. apply skipn_all2. exact Hge.
Qed.

Lemma slice_length (videoIds : list jsstring) (i : nat) :
  List.length (slice i (i + batchSize) videoIds)
  = Nat.min batchSize (List.length videoIds - i).
Proof.
  unfold slice. rewrite length_firstn, length_skipn. f_equal. lia.
Qed.

Lemma batches_from_sizes (videoIds : list jsstring) (fuel : nat) :
  forall i,
  Forall (fun batch => (1 <= List.length batch <= 50)%nat)
    (batches_from fuel videoIds i)
  /\ Forall (fun batch => List.length batch = 50%nat)
       (removelast (batches_from fuel videoIds i)).
Proof.
  induction fuel as [|fuel IH]; intros i; cbn [batches_from].
  - split; constructor.
  - destruct (Nat.ltb_spec i (List.length videoIds)) as [Hlt|Hge];
      [|split; constructor].
    destruct (IH (i + batchSize)%nat) as [Hsizes Hfull]. split.
    + constructor; [|exact Hsizes].
      rewrite slice_length. unfold batchSize. lia.
    + destruct (batches_from fuel videoIds (i + batchSize)) as [|b bs] eqn:Hrest.
      * constructor.
      * change (removelast (slice i (i + batchSize) videoIds :: b :: bs))
          with (slice i (i + batchSize) videoIds :: removelast (b :: bs)).
        constructor; [|exact Hfull].
        rewrite slice_length.
        assert (Hnext : (i + batchSize < List.length videoIds)%nat).
        { destruct fuel; [discriminate Hrest|]. cbn [batches_from] in Hrest.
          destruct (Nat.ltb_spec (i + batchSize) (List.length videoIds));
            [assumption | discriminate Hrest]. }
        unfold batchSize in *. lia.
Qed.

Lemma batches_from_fuel (videoIds : list jsstring) (fuel : nat) :
  forall fuel' i,
  (List.length videoIds - i <= fuel)%nat ->
  (List.length videoIds - i <= fuel')%nat ->
  batches_from fuel videoIds i = batches_from fuel' videoIds i.
Proof.
  induction fuel as [|fuel IH]; intros fuel' i H H'.
  - destruct fuel'; [reflexivity|]. cbn [batches_from].
    destruct (Nat.ltb_spec i (List.length videoIds)); [lia | reflexivity].
  - cbn [batches_from].
    destruct (Nat.ltb_spec i (List.length videoIds)) as [Hlt|Hge].
    + destruct fuel'; [lia|]. cbn [batches_from].
      destruct (Nat.ltb_spec i (List.length videoIds)); [|lia].
      f_equal. apply IH; unfold batchSize; lia.
    + destruct fuel'; [reflexivity|]. cbn [batches_from].
      destruct (Nat.ltb_spec i (List.length videoIds)); [lia | reflexivity].
Qed.

(** A batch is read up to the first item that lacks its duration. *)
Lemma batchItems_cut (before : list VideoItem) (bad : VideoItem)
    (after : list VideoItem) :
  Forall (fun video => lacks_duration video = false) before ->
  lacks_duration bad = true ->
  batchItems (before ++ bad :: after) = batchItems before.
Proof.
  intros Hbefore Hbad.
  induction Hbefore as [|video rest Hvideo _ IH]; cbn [app batchItems].
  - unfold lacks_duration in Hbad.
    destruct (vi_snippet bad); [|discriminate Hbad].
    destruct (vi_contentDetails bad) as [[iso|]|];
      [discriminate Hbad | reflexivity | discriminate Hbad].
  - unfold lacks_duration in Hvideo.
    destruct (vi_snippet video) as [snippet|]; [|exact IH].
    destruct (vi_contentDetails video) as [[iso|]|];
      [rewrite IH; reflexivity | discriminate Hvideo | exact IH].
Qed.

Lemma batchItems_all (items : list VideoItem) :
  Forall (fun video => lacks_duration video = false) items ->
  batchItems items = flat_map entry items.
Proof.
  induction 1 as [|video rest Hvideo _ IH]; cbn [batchItems flat_map].
  - reflexivity.
  - unfold lacks_duration in Hvideo. unfold entry at 1.
    destruct (vi_snippet video) as [snippet|]; [|exact IH].
    destruct (vi_contentDetails video) as [[iso|]|];
      [rewrite IH; reflexivity | discriminate Hvideo | exact IH].
Qed.

(** X9: [validateVideoIds] asks for the identities in consecutive batches,
    each identity once and in order, every batch of 50 but the last, which
    has from 1 to 50; it returns, in order, what the answered batches give;
    a batch whose request rejects or is answered outside 2xx adds nothing
    and stops nothing.  An answered batch gives the entries of its items
    that have a snippet and content details, up to the first item whose
    content details have no duration: there [formatDuration] throws, and the
    items after it are lost with it.  The loop ends by its own test: more
    fuel changes nothing.  The numbers read from the items are taken to be
    integers that binary64 holds exactly. *)
Theorem validateVideoIds_batches (yt : YouTube) (videoIds : list jsstring)
    (apiKey : jsstring) :
  exact_catalog yt apiKey ->
  validateVideoIds yt videoIds apiKey
  = flat_map (fun batch =>
                batchResults (yt_videos yt (join (lit ",") batch) apiKey))
             (batches videoIds)
  /\ List.concat (batches videoIds) = videoIds
  /\ Forall (fun batch => (1 <= List.length batch <= 50)%nat) (batches videoIds)
  /\ Forall (fun batch => List.length batch = 50%nat)
       (removelast (batches videoIds))
  /\ (forall fuel, (List.length videoIds <= fuel)%nat ->
        validateVideoIds_loop fuel yt videoIds apiKey 0 []
        = validateVideoIds yt videoIds apiKey)
  /\ (forall items,
        Forall exact_item items ->
        Forall (fun video => lacks_duration video = false) items ->
        batchResults (Ok (Some items)) = flat_map entry items)
  /\ (forall before bad after,
        Forall exact_item before ->
        Forall (fun video => lacks_duration video = false) before ->
        lacks_duration bad = true ->
        batchResults (Ok (Some (before ++ bad :: after)))
        = flat_map entry before)
  /\ (forall f status statusText body,
        batchResults (Rejected f) = []
        /\ batchResults (NotOk status statusText body) = []
        /\ batchResults (Ok None) = []).
Proof.
  intros _.
  assert (Hloop : validateVideoIds yt videoIds apiKey
                  = flat_map (fun batch =>
                      batchResults (yt_videos yt (join (lit ",") batch) apiKey))
                     (batches videoIds)).
  { unfold validateVideoIds, batches. destruct videoIds as [|id ids].
    - reflexivity.
    - rewrite validateVideoIds_loop_batches. reflexivity. }
  split; [exact Hloop|]. split; [|split; [|split; [|split; [|split; [|split]]]]].
  - unfold batches. rewrite batches_from_concat by lia. reflexivity.
  - apply batches_from_sizes.
  - apply batches_from_sizes.
  - intros fuel Hfuel. rewrite Hloop, validateVideoIds_loop_batches.
    cbn [app]. unfold batches.
    rewrite (batches_from_fuel videoIds fuel (List.length videoIds) 0)
      by lia.
    reflexivity.
  - intros items _ Hitems. cbn [batchResults]. apply batchItems_all.
    exact Hitems.
  - intros before bad after _ Hbefore Hbad. cbn [batchResults].
    rewrite batchItems_cut by assumption. apply batchItems_all.
    exact Hbefore.
  - intros f status statusText body. repeat split.
Qed.

Lemma validateVideoIds_batches_witness :
  validateVideoIds
    (catalog [item "aaaaaaaaaa1" "First" "PT14M32S";
              item_without_duration "bbbbbbbbbb2" "Second";
              item "cccccccccc3" "Third" "PT20M"])
    [lit "aaaaaaaaaa1"; lit "bbbbbbbbbb2"; lit "cccccccccc3"] (lit "key")
  = [video "aaaaaaaaaa1" "First" "PT14M32S"].
Proof.
  rewrite (proj1 (validateVideoIds_batches
                    (catalog [item "aaaaaaaaaa1" "First" "PT14M32S";
                              item_without_duration "bbbbbbbbbb2" "Second";
                              item "cccccccccc3" "Third" "PT20M"])
                    [lit "aaaaaaaaaa1"; lit "bbbbbbbbbb2"; lit "cccccccccc3"]
                    (lit "key")
                    ltac:(intros ids items H; injection H as <-;
                          repeat constructor; vm_compute; discriminate))).
  reflexivity.
Defined.

(** ** More on the pipeline *)

Lemma uniqueVideos_of_NoDup (l : list YouTubeVideoData) :
  NoDup (map videoId (uniqueVideos_of l)).
Proof.
  unfold uniqueVideos_of. rewrite <- firstn_map.
  pose proof (dedupe_NoDup l) as Hnd.
  rewrite <- (firstn_skipn 20 (map videoId (dedupe l))) in Hnd.
  apply NoDup_app_remove_r in Hnd. exact Hnd.
Qed.

(** X10: when the reply names, as [selectedVideoId], the identity of a
    candidate, the suggestion is put together from that candidate: its
    title, its watch URL, its thumbnail, its channel and its formatted
    duration, with the tags of the reply (none when it has none) and its
    summary (left undefined when it has none). *)
Theorem selected_candidate_is_used (YOUTUBE_API_KEY : jsstring)
    (JSON_parse : jsstring -> option JsonValue)
    (msg_trim_of_undefined msg_property_of_null msg_match_of_undefined
     msg_no_primitive : jsstring)
    (w : World) (time : Z) (moods : list jsstring)
    (v : YouTubeVideoData) (text : jsstring) (selectionData : JsonValue) :
  let candidates := uniqueVideos YOUTUBE_API_KEY msg_match_of_undefined w time
      moods in
  let tags := get_prop selectionData (lit "tags") in
  In v candidates ->
  gemini w (selectionPrompt time moods candidates)
  = OracleResponds (Some text) ->
  JSON_parse (trim text) = Some selectionData ->
  get_prop selectionData (lit "selectedVideoId") = Some (JString (videoId v)) ->
  videoId v <> [] ->
  fetchVideoSuggestion YOUTUBE_API_KEY JSON_parse msg_trim_of_undefined
    msg_property_of_null msg_match_of_undefined msg_no_primitive w time moods
  = inr {| vs_title := title v;
           vs_youtubeUrl := watchUrl (videoId v);
           vs_thumbnailUrl := thumbnailUrl v;
           vs_channelName := channelName v;
           vs_duration := durationFormatted v;
           vs_tags := if truthy tags
                      then match tags with Some t => t | None => JArray [] end
                      else JArray [];
           vs_promotionalSummary :=
             get_prop selectionData (lit "promotionalSummary") |}.
Proof.
  intros candidates tags Hin Horacle Hparse Hselected Hid.
  pose proof (uniqueVideos_of_NoDup (allVideos YOUTUBE_API_KEY
      msg_match_of_undefined w time moods))
    as Hnd.
  fold (uniqueVideos YOUTUBE_API_KEY msg_match_of_undefined w time moods) in
      Hnd. fold candidates in Hnd.
  unfold fetchVideoSuggestion, fetchVideoSuggestion_try. fold candidates.
  destruct candidates as [|first others] eqn:Hc; [contradiction Hin|].
  unfold select. rewrite Horacle, Hparse.
  assert (Hnotnull : selectionData <> JNull).
  { intros ->. discriminate Hselected. }
  rewrite (read_selection_not_null _ _ _ _ _ _ Hnotnull).
  unfold reconcile. fold tags. rewrite Hselected.
  assert (Htruthy : truthy (Some (JString (videoId v))) = true).
  { cbn [truthy]. destruct (videoId v); [contradiction Hid|]; reflexivity. }
  rewrite Htruthy. cbn [negb].
  change (find (fun x => strict_eq (videoId x) (Some (JString (videoId v))))
            (first :: others))
    with (find (has_id (videoId v)) (first :: others)).
  rewrite (find_unique (first :: others) v Hnd Hin). reflexivity.
Qed.

Lemma selected_candidate_is_used_witness :
  let w := world [item "aaaaaaaaaa1" "First" "PT14M32S";
                  item "bbbbbbbbbb2" "Second" "PT20M"]
             (reply_id_tags "bbbbbbbbbb2") in
  let parse := parse_known [(reply_id_tags "bbbbbbbbbb2",
                             reply_id_tags_value "bbbbbbbbbb2")] in
  exists s,
    fetchVideoSuggestion (lit "key") parse v8_trim_of_undefined
      v8_property_of_null v8_match_of_undefined v8_no_primitive w 15
          [mood_curious] = inr s
    /\ vs_title s = lit "Second"
    /\ vs_duration s = lit "20:00"
    /\ vs_tags s = three_tags
    /\ vs_promotionalSummary s = None.
Proof.
  intros w parse. eexists. split.
  - apply (selected_candidate_is_used (lit "key") parse v8_trim_of_undefined
             v8_property_of_null v8_match_of_undefined v8_no_primitive w 15
                 [mood_curious]
             (video "bbbbbbbbbb2" "Second" "PT20M")
             (reply_id_tags "bbbbbbbbbb2")
             (reply_id_tags_value "bbbbbbbbbb2")).
    + right; left; reflexivity.
    + reflexivity.
    + reflexivity.
    + reflexivity.
    + discriminate.
  - repeat split; reflexivity.
Defined.

Lemma includes_unfold (s sub : jsstring) :
  includes s sub
  = startsWith s sub || match s with [] => false | _ :: r => includes r sub end.
Proof. destruct s; reflexivity. Qed.

Lemma startsWith_app (sub rest : jsstring) : startsWith (sub ++ rest) sub = true.
Proof.
  induction sub as [|c r IH]; cbn [app startsWith]; [reflexivity|].
  rewrite N.eqb_refl, IH. reflexivity.
Qed.

Lemma includes_here (sub rest : jsstring) : includes (sub ++ rest) sub = true.
Proof. rewrite includes_unfold, startsWith_app. reflexivity. Qed.

Lemma includes_refl (sub : jsstring) : includes sub sub = true.
Proof.
  rewrite <- (List.app_nil_r sub) at 1. apply includes_here.
Qed.

Lemma startsWith_app_l (a b sub : jsstring) :
  startsWith a sub = true -> startsWith (a ++ b) sub = true.
Proof.
  revert a. induction sub as [|c r IH]; intros a; [reflexivity|].
  destruct a as [|d a']; cbn [app startsWith]; [discriminate|].
  intros H. apply andb_true_iff in H. destruct H as [Hc Hr].
  rewrite Hc, (IH _ Hr). reflexivity.
Qed.

Lemma includes_app_l (a b sub : jsstring) :
  includes a sub = true -> includes (a ++ b) sub = true.
Proof.
  induction a as [|c r IH]; intros H.
  - cbn [includes] in H. rewrite orb_false_r in H.
    destruct sub; [|discriminate H]. rewrite includes_unfold. reflexivity.
  - cbn [includes] in H. apply orb_true_iff in H.
    change ((c :: r) ++ b) with (c :: (r ++ b)). cbn [includes].
    apply orb_true_iff. destruct H as [H|H].
    + left. apply (startsWith_app_l (c :: r) b sub H).
    + right. apply IH. exact H.
Qed.

Lemma includes_app_r (a b sub : jsstring) :
  includes b sub = true -> includes (a ++ b) sub = true.
Proof.
  intros H. induction a as [|c r IH]; [exact H|].
  cbn [app includes]. rewrite IH. apply orb_true_r.
Qed.

Lemma includes_join (sep : jsstring) (l : list jsstring) (y sub : jsstring) :
  In y l -> includes y sub = true -> includes (join sep l) sub = true.
Proof.
  intros Hin Hy. destruct l as [|a r]; [contradiction Hin|].
  cbn [join]. destruct Hin as [->|Hin].
  - apply includes_app_l. exact Hy.
  - apply includes_app_r. induction r as [|b r IH]; [contradiction Hin|].
    cbn [flat_map]. destruct Hin as [->|Hin].
    + apply includes_app_l. apply includes_app_r. exact Hy.
    + apply includes_app_r. apply IH. exact Hin.
Qed.

Lemma mapi_In {A B : Type} (f : A -> nat -> B) (l : list A) (x : A) :
  In x l -> forall i, exists j, In (f x j) (mapi f l i).
Proof.
  induction l as [|a r IH]; intros Hin i; [contradiction Hin|].
  cbn [mapi]. destruct Hin as [->|Hin].
  - exists i. left; reflexivity.
  - destruct (IH Hin (S i)) as [j Hj]. exists j. right; exact Hj.
Qed.

#[local] Ltac find_part :=
  first [ apply includes_here
        | apply includes_refl
        | apply includes_app_r; find_part ].

(** X11: the prompt shows the oracle every candidate: the identity, the
    title, the channel, the formatted duration and the first 200 code units of
    the description of each, and every mood label. *)
Theorem selectionPrompt_lists_candidates (time : Z) (moods : list jsstring)
    (candidates : list YouTubeVideoData) :
  (forall v, In v candidates ->
     let prompt := selectionPrompt time moods candidates in
     includes prompt (videoId v) = true
     /\ includes prompt (title v) = true
     /\ includes prompt (channelName v) = true
     /\ includes prompt (durationFormatted v) = true
     /\ includes prompt (firstn 200 (description v)) = true)
  /\ (forall mood, In mood moods ->
        includes (selectionPrompt time moods candidates) mood = true).
Proof.
  split.
  - intros v Hin prompt. subst prompt.
    destruct (mapi_In
                (fun video index =>
                   toString (N.of_nat (index + 1)) ++ lit ". Video ID: "
                     ++ videoId video ++ nl
                     ++ lit "   Title: " ++ title video ++ nl
                     ++ lit "   Channel: " ++ channelName video ++ nl
                     ++ lit "   Duration: " ++ durationFormatted video ++ nl
                     ++ lit "   Description: "
                     ++ firstn 200 (description video) ++ lit "...")
                candidates v Hin 0%nat) as [j Hj].
    assert (Hlist : forall sub,
              includes
                (toString (N.of_nat (j + 1)) ++ lit ". Video ID: "
                   ++ videoId v ++ nl
                   ++ lit "   Title: " ++ title v ++ nl
                   ++ lit "   Channel: " ++ channelName v ++ nl
                   ++ lit "   Duration: " ++ durationFormatted v ++ nl
                   ++ lit "   Description: "
                   ++ firstn 200 (description v) ++ lit "...") sub = true ->
              includes (selectionPrompt time moods candidates) sub = true).
    { intros sub Hsub. unfold selectionPrompt. cbv zeta.
      do 40 apply includes_app_r. apply includes_app_l.
      unfold videosList. apply (includes_join _ _ _ _ Hj Hsub). }
    repeat split; apply Hlist; find_part.
  - intros mood Hin. unfold selectionPrompt. cbv zeta.
    do 16 apply includes_app_r. apply includes_app_l.
    apply (includes_join _ _ mood mood Hin). apply includes_refl.
Qed.

Lemma selectionPrompt_lists_candidates_witness :
  includes
    (selectionPrompt 15 [mood_curious]
       [video "aaaaaaaaaa1" "First" "PT14M32S";
        video "bbbbbbbbbb2" "Second" "PT20M"])
    (lit "bbbbbbbbbb2") = true.
Proof.
  apply (proj1 (selectionPrompt_lists_candidates 15 [mood_curious]
                  [video "aaaaaaaaaa1" "First" "PT14M32S";
                   video "bbbbbbbbbb2" "Second" "PT20M"])
           (video "bbbbbbbbbb2" "Second" "PT20M")).
  right; left; reflexivity.
Defined.

Lemma trimStart_fixed (s : jsstring) :
  (forall c, hd_error s = Some c -> is_space c = false) -> trimStart s = s.
Proof.
  destruct s as [|c r]; [reflexivity|]. intros H. cbn [trimStart].
  rewrite (H c eq_refl). reflexivity.
Qed.

Lemma trim_trim (s : jsstring) : trim (trim s) = trim s.
Proof.
  unfold trim at 1. rewrite (trimStart_fixed (trim s) (trim_head s)).
  unfold trimEnd. rewrite (trimStart_fixed (rev (trim s)) (trim_last s)).
  apply rev_involutive.
Qed.

Lemma filter_all {A : Type} (p : A -> bool) (l : list A) :
  (forall x, In x l -> p x = true) -> filter p l = l.
Proof.
  induction l as [|a r IH]; intros H; cbn [filter]; [reflexivity|].
  rewrite (H a (or_introl eq_refl)), IH; [reflexivity|].
  intros x Hx. apply H. right; exact Hx.
Qed.

Lemma cleanMood_cleanMood (mood : jsstring) :
  cleanMood (cleanMood mood) = cleanMood mood.
Proof.
  unfold cleanMood at 1. rewrite filter_all.
  - unfold cleanMood. apply trim_trim.
  - intros c Hc. unfold cleanMood in Hc.
    destruct (trim_split (filter (fun c => is_word c || is_space c) mood))
      as (pre & post & _ & _ & Hsplit).
    assert (Hkept : In c (filter (fun c => is_word c || is_space c) mood)).
    { rewrite Hsplit. apply in_or_app. right. apply in_or_app. left. exact Hc. }
    apply filter_In in Hkept. exact (proj2 Hkept).
Qed.

(** X12: forming the query is idempotent: the query of a query is that
    query; and a query other than the raw label holds only word characters
    and white space, with none at either end. *)
Theorem searchQuery_idempotent (mood : jsstring) :
  searchQuery (searchQuery mood) = searchQuery mood
  /\ (searchQuery mood <> mood ->
      forallb (fun c => is_word c || is_space c) (searchQuery mood) = true
      /\ trim (searchQuery mood) = searchQuery mood).
Proof.
  assert (Hq : searchQuery mood = mood
               \/ (cleanMood mood <> [] /\ searchQuery mood = cleanMood mood)).
  { unfold searchQuery. destruct (cleanMood mood) as [|c r];
      [left; reflexivity | right; split; [discriminate | reflexivity]]. }
  destruct Hq as [Hraw|[Hsome Hq]].
  - split; [rewrite Hraw; exact Hraw|]. intros H. contradiction.
  - rewrite Hq. split.
    + unfold searchQuery. rewrite cleanMood_cleanMood.
      destruct (cleanMood mood); [contradiction Hsome|]; reflexivity.
    + intros _. split.
      * apply forallb_forall. intros x Hx. unfold cleanMood in Hx.
        destruct (trim_split (filter (fun c => is_word c || is_space c) mood))
          as (pre & post & _ & _ & Hsplit).
        assert (Hkept : In x (filter (fun c => is_word c || is_space c) mood)).
        { rewrite Hsplit. apply in_or_app. right. apply in_or_app. left.
          exact Hx. }
        apply filter_In in Hkept. exact (proj2 Hkept).
      * unfold cleanMood. apply trim_trim.
Qed.

Lemma searchQuery_idempotent_witness :
  searchQuery mood_curious <> mood_curious
  /\ trim (searchQuery mood_curious) = searchQuery mood_curious.
Proof.
  assert (H : searchQuery mood_curious <> mood_curious)
    by (vm_compute; discriminate).
  split; [exact H|].
  apply (proj2 (searchQuery_idempotent mood_curious) H).
Defined.

Lemma Map_set_fresh {V : Type} (m : list (jsstring * V)) (k : jsstring) (v : V) :
  known k (map fst m) = false -> Map_set m k v = m ++ [(k, v)].
Proof.
  induction m as [|[k' v'] r IH]; cbn [Map_set map fst known existsb app].
  - reflexivity.
  - fold (known k (map fst r)). intros H. apply orb_false_iff in H.
    destruct H as [Hk Hr]. rewrite Hk, (IH Hr). reflexivity.
Qed.

Lemma Map_fold_fresh (l : list YouTubeVideoData) :
  forall m : list (jsstring * YouTubeVideoData),
  NoDup (map fst m ++ map videoId l) ->
  fold_left (fun m e => Map_set m (fst e) (snd e)) (entries l) m
  = m ++ entries l.
Proof.
  induction l as [|v r IH]; intros m Hnd;
    cbn [entries map fold_left fst snd].
  - rewrite List.app_nil_r. reflexivity.
  - fold (entries r). cbn [map] in Hnd.
    assert (Hfresh : known (videoId v) (map fst m) = false).
    { destruct (known (videoId v) (map fst m)) eqn:Hk; [|reflexivity].
      apply known_In in Hk. apply NoDup_remove_2 in Hnd. exfalso.
      apply Hnd. apply in_or_app. left. exact Hk. }
    rewrite (Map_set_fresh m _ v Hfresh), IH.
    + rewrite <- List.app_assoc. reflexivity.
    + rewrite map_app. cbn [map fst]. rewrite <- List.app_assoc. exact Hnd.
Qed.

Lemma dedupe_NoDup_id (l : list YouTubeVideoData) :
  NoDup (map videoId l) -> dedupe l = l.
Proof.
  intros Hnd. unfold dedupe, Map_values, Map_of. fold (entries l).
  rewrite (Map_fold_fresh l []) by exact Hnd.
  cbn [app]. unfold entries. rewrite map_map. cbn [snd]. apply map_id.
Qed.

(** X13: a list of at most 20 entries with no identity twice is left as it
    is by the deduplication and the cap; so applying them a second time
    changes nothing. *)
Theorem uniqueVideos_of_fixed (l : list YouTubeVideoData) :
  (NoDup (map videoId l) -> (List.length l <= 20)%nat -> uniqueVideos_of l = l)
  /\ uniqueVideos_of (uniqueVideos_of l) = uniqueVideos_of l.
Proof.
  assert (Hfixed : forall l' : list YouTubeVideoData,
            NoDup (map videoId l') -> (List.length l' <= 20)%nat ->
            uniqueVideos_of l' = l').
  { intros l' Hnd Hlen. unfold uniqueVideos_of.
    rewrite (dedupe_NoDup_id l' Hnd). apply firstn_all2. exact Hlen. }
  split; [apply Hfixed|].
  apply Hfixed.
  - apply uniqueVideos_of_NoDup.
  - unfold uniqueVideos_of. apply firstn_le_length.
Qed.

Lemma uniqueVideos_of_fixed_witness :
  let l := [video "aaaaaaaaaa1" "First" "PT14M32S";
            video "bbbbbbbbbb2" "Second" "PT20M"] in
  uniqueVideos_of l = l.
Proof.
  intros l. apply (proj1 (uniqueVideos_of_fixed l)); subst l.
  - repeat constructor; cbn [In map]; intros H;
      repeat (destruct H as [H|H]; [discriminate H|]); exact H.
  - cbn [List.length]. lia.
Defined.

(** X14: the [catch] of [fetchVideoSuggestion] always ends with an [Error]
    object; what it has re-labelled once it leaves unchanged; and a message
    that mentions the API key is labelled as an API key error whatever else
    it mentions. *)
Theorem relabel_stable (e : Thrown) :
  (exists kind message, relabel e = ErrorObj kind message)
  /\ relabel (relabel e) = relabel e
  /\ (forall kind message,
        e = ErrorObj kind message ->
        includes message (lit "API_KEY") = true ->
        exists message', relabel e = ErrorObj ApiKeyError message').
Proof.
  split; [|split].
  - destruct e as [kind message|]; unfold relabel;
      repeat match goal with
             | |- context [if ?c then _ else _] => destruct c
             end; eexists; eexists; reflexivity.
  - destruct e as [kind message|]; [|vm_compute; reflexivity].
    destruct (includes message (lit "API_KEY") || includes message (lit "apiKey"))
      eqn:Hkey.
    { replace (relabel (ErrorObj kind message))
        with (ErrorObj ApiKeyError
                (lit "API key error. Please check your .env.local file and ensure both GEMINI_API_KEY and YOUTUBE_API_KEY are set correctly."))
        by (unfold relabel; rewrite Hkey; reflexivity).
      vm_compute. reflexivity. }
    destruct (includes message (lit "quota") || includes message (lit "Quota"))
      eqn:Hquota.
    { replace (relabel (ErrorObj kind message))
        with (ErrorObj QuotaExceeded
                (lit "API quota exceeded. Please check your API usage limits."))
        by (unfold relabel; rewrite Hkey, Hquota; reflexivity).
      vm_compute. reflexivity. }
    destruct (includes message (lit "network") || includes message (lit "fetch"))
      eqn:Hnet.
    { replace (relabel (ErrorObj kind message))
        with (ErrorObj NetworkError
                (lit "Network error. Please check your internet connection and try again."))
        by (unfold relabel; rewrite Hkey, Hquota, Hnet; reflexivity).
      vm_compute. reflexivity. }
    replace (relabel (ErrorObj kind message)) with (ErrorObj kind message)
      by (unfold relabel; rewrite Hkey, Hquota, Hnet; reflexivity).
    unfold relabel. rewrite Hkey, Hquota, Hnet. reflexivity.
  - intros kind message -> Hkey. unfold relabel. rewrite Hkey.
    cbn [orb]. eexists. reflexivity.
Qed.

Lemma relabel_stable_witness :
  exists message',
    relabel (ErrorObj External (lit "quota check failed: API_KEY missing"))
    = ErrorObj ApiKeyError message'.
Proof.
  apply (proj2 (proj2 (relabel_stable
                         (ErrorObj External
                            (lit "quota check failed: API_KEY missing"))))
           External (lit "quota check failed: API_KEY missing") eq_refl).
  reflexivity.
Defined.

Lemma mapi_ext {A B : Type} (f g : A -> nat -> B) (l : list A) :
  (forall x j, f x j = g x j) -> forall i, mapi f l i = mapi g l i.
Proof.
  intros H. induction l as [|x r IH]; intros i; cbn [mapi]; [reflexivity|].
  rewrite H, IH. reflexivity.
Qed.

(** X15: [fetchVideoSuggestion] sees of the catalog only what each search
    found: two worlds with the same oracle whose searches, one by one, find
    the same entries or fail, give the same result.  A search that fails
    cannot be told from one that found nothing. *)
Theorem fetchVideoSuggestion_sees_found (YOUTUBE_API_KEY : jsstring)
    (JSON_parse : jsstring -> option JsonValue)
    (msg_trim_of_undefined msg_property_of_null msg_match_of_undefined
     msg_no_primitive : jsstring)
    (w w' : World) (time : Z) (moods : list jsstring) :
  (forall i query,
     found (searchVideos msg_match_of_undefined (youtube w i) query
         YOUTUBE_API_KEY (Some 15)
              (Some (band_min (getDurationRange time)))
              (Some (band_max (getDurationRange time))))
     = found (searchVideos msg_match_of_undefined (youtube w' i) query
         YOUTUBE_API_KEY (Some 15)
                (Some (band_min (getDurationRange time)))
                (Some (band_max (getDurationRange time))))) ->
  (forall prompt, gemini w prompt = gemini w' prompt) ->
  fetchVideoSuggestion YOUTUBE_API_KEY JSON_parse msg_trim_of_undefined
    msg_property_of_null msg_match_of_undefined msg_no_primitive w time moods
  = fetchVideoSuggestion YOUTUBE_API_KEY JSON_parse msg_trim_of_undefined
      msg_property_of_null msg_match_of_undefined msg_no_primitive w' time
          moods.
Proof.
  intros Hfound Horacle.
  assert (Hall : allVideos YOUTUBE_API_KEY msg_match_of_undefined w time moods
                 = allVideos YOUTUBE_API_KEY msg_match_of_undefined w' time
                     moods).
  { rewrite !allVideos_searches. f_equal. apply mapi_ext.
    intros mood j. apply Hfound. }
  unfold fetchVideoSuggestion, fetchVideoSuggestion_try, uniqueVideos.
  rewrite Hall.
  destruct (uniqueVideos_of (allVideos YOUTUBE_API_KEY msg_match_of_undefined
      w' time moods))
    as [|fallbackVideo others]; [reflexivity|].
  unfold select. rewrite Horacle. reflexivity.
Qed.

Lemma fetchVideoSuggestion_sees_found_witness :
  let oracle := fun _ : jsstring => OracleResponds None in
  fetchVideoSuggestion (lit "key") (parse_known []) v8_trim_of_undefined
    v8_property_of_null v8_match_of_undefined v8_no_primitive
    {| youtube := fun _ => catalog_refusing; gemini := oracle |}
    15 [mood_curious]
  = fetchVideoSuggestion (lit "key") (parse_known []) v8_trim_of_undefined
      v8_property_of_null v8_match_of_undefined v8_no_primitive
      {| youtube := fun _ => catalog []; gemini := oracle |}
      15 [mood_curious].
Proof.
  intros oracle.
  apply (fetchVideoSuggestion_sees_found (lit "key") (parse_known [])
           v8_trim_of_undefined v8_property_of_null v8_match_of_undefined
               v8_no_primitive
           {| youtube := fun _ => catalog_refusing; gemini := oracle |}
           {| youtube := fun _ => catalog []; gemini := oracle |}
           15 [mood_curious]).
  - intros i query. reflexivity.
  - intros prompt. reflexivity.
Defined.

(** ** The application *)

Lemma array_includes_In (l : list jsstring) (x : jsstring) :
  array_includes l x = true <-> In x l.
Proof.
  unfold array_includes. rewrite existsb_exists. split.
  - intros (m & Hin & Hm). apply jsstring_eqb_eq in Hm. subst. exact Hin.
  - intros Hin. exists x. split; [exact Hin | apply jsstring_eqb_refl].
Qed.

Lemma filter_other_In (l : list jsstring) (mood m : jsstring) :
  In m (filter (fun m' => negb (jsstring_eqb m' mood)) l)
  <-> In m l /\ m <> mood.
Proof.
  rewrite filter_In. split; intros [Hin H]; (split; [exact Hin|]).
  - apply negb_true_iff in H. apply jsstring_eqb_neq in H. exact H.
  - apply negb_true_iff. apply jsstring_eqb_neq. exact H.
Qed.

(** X16: a click on a mood toggles it and nothing else: afterwards the
    mood is selected exactly when it was not before, every other mood is
    selected exactly when it was; a selection without repetition stays
    without repetition; and two clicks on a mood that was not selected give
    the selection back as it was. *)
Theorem handleMoodClick_toggles (selected : list jsstring) (mood : jsstring) :
  (In mood (handleMoodClick selected mood) <-> ~ In mood selected)
  /\ (forall m, m <> mood ->
        (In m (handleMoodClick selected mood) <-> In m selected))
  /\ (NoDup selected -> NoDup (handleMoodClick selected mood))
  /\ (~ In mood selected ->
      handleMoodClick (handleMoodClick selected mood) mood = selected).
Proof.
  unfold handleMoodClick at 1 2 3.
  destruct (array_includes selected mood) eqn:Hinc.
  - apply array_includes_In in Hinc. split; [|split; [|split]].
    + rewrite filter_other_In. split; [intros [_ H]; contradiction H; reflexivity|].
      intros H. contradiction.
    + intros m Hm. rewrite filter_other_In. tauto.
    + intros Hnd. apply NoDup_filter. exact Hnd.
    + intros H. contradiction.
  - assert (Hnot : ~ In mood selected).
    { intros H. apply array_includes_In in H. congruence. }
    split; [|split; [|split]].
    + split; [intros _; exact Hnot|]. intros _. apply in_or_app.
      right. left. reflexivity.
    + intros m Hm. rewrite in_app_iff. cbn [In]. split; [|tauto].
      intros [H|[H|[]]]; [exact H | congruence].
    + intros Hnd. apply NoDup_app; repeat split.
      * exact Hnd.
      * constructor; [intros [] | constructor].
      * intros x Hx [<-|[]]. contradiction.
    + intros _. unfold handleMoodClick. rewrite Hinc.
      assert (Hnow : array_includes (selected ++ [mood]) mood = true).
      { apply array_includes_In. apply in_or_app. right. left. reflexivity. }
      rewrite Hnow. rewrite filter_app. cbn [filter].
      rewrite jsstring_eqb_refl. cbn [negb]. rewrite List.app_nil_r.
      apply filter_all. intros m Hm. apply negb_true_iff.
      apply jsstring_eqb_neq. intros ->. contradiction.
Qed.

Lemma handleMoodClick_toggles_witness :
  handleMoodClick (handleMoodClick [mood_curious] (lit "Calm")) (lit "Calm")
  = [mood_curious].
Proof.
  apply (proj2 (proj2 (proj2 (handleMoodClick_toggles [mood_curious]
                                (lit "Calm"))))).
  intros [H|[]]. vm_compute in H. discriminate H.
Defined.

(** X17: a run of [handleFindMoment].  With no mood selected nothing is
    fetched and the error asks for a mood.  Otherwise the run ends not
    loading, with either the suggestion and no error, shown as the card, or
    no suggestion and the message of the [Error] that the pipeline threw,
    shown as the error box when the message is not empty and as the form when
    it is; the message for a thrown value that is no [Error] never
    appears. *)
Theorem handleFindMoment_outcome (YOUTUBE_API_KEY : jsstring)
    (JSON_parse : jsstring -> option JsonValue)
    (msg_trim_of_undefined msg_property_of_null msg_match_of_undefined
     msg_no_primitive : jsstring)
    (w : World) (s : AppState) :
  let fetch := fetchVideoSuggestion YOUTUBE_API_KEY JSON_parse
                 msg_trim_of_undefined msg_property_of_null
                     msg_match_of_undefined msg_no_primitive w in
  let s' := handleFindMoment fetch s in
  (selectedMoods s = [] ->
     forall other,
       handleFindMoment other s = s'
       /\ error s' = Some (lit "Please select at least one mood.")
       /\ suggestion s' = suggestion s /\ isLoading s' = isLoading s)
  /\ (selectedMoods s <> [] ->
      isLoading s' = false
      /\ ((exists result,
             fetch (selectedTime s) (selectedMoods s) = inr result
             /\ suggestion s' = Some result /\ error s' = None
             /\ renderContent s' = CardView result)
          \/ (exists kind message,
                fetch (selectedTime s) (selectedMoods s)
                = inl (ErrorObj kind message)
                /\ suggestion s' = None /\ error s' = Some message
                /\ renderContent s'
                   = match message with
                     | [] => FormView
                     | c :: r => ErrorView (c :: r)
                     end))).
Proof.
  intros fetch s'. subst s'. unfold handleFindMoment. split.
  - intros Hnone other. rewrite Hnone. repeat split.
  - intros Hsome. destruct (selectedMoods s) as [|mood moods] eqn:Hmoods;
      [contradiction Hsome; reflexivity|].
    destruct (fetch (selectedTime s) (mood :: moods)) as [err|result] eqn:Hfetch.
    + split; [reflexivity|]. right.
      destruct (fetch_error_kind _ _ _ _ _ _ _ _ _ _ Hfetch)
        as (kind & message & -> & _).
      exists kind, message. repeat split.
    + split; [reflexivity|]. left. exists result. repeat split.
Qed.

Lemma handleFindMoment_outcome_witness :
  let w := world [item "aaaaaaaaaa1" "First" "PT14M32S"]
             (reply_id "aaaaaaaaaa1") in
  let parse := parse_known [(reply_id "aaaaaaaaaa1",
                             reply_id_value "aaaaaaaaaa1")] in
  let s := {| selectedTime := 15; selectedMoods := [mood_curious];
              suggestion := None; isLoading := false; error := None |} in
  isLoading
    (handleFindMoment
       (fetchVideoSuggestion (lit "key") parse v8_trim_of_undefined
          v8_property_of_null v8_match_of_undefined v8_no_primitive w) s) =
              false.
Proof.
  intros w parse s.
  apply (proj2 (handleFindMoment_outcome (lit "key") parse
                  v8_trim_of_undefined v8_property_of_null
                      v8_match_of_undefined v8_no_primitive w s)).
  discriminate.
Defined.

(** ** Sizes *)

Lemma keep_first_length (l : list YouTubeVideoData) :
  forall seen, (List.length (keep_first seen l) <= List.length l)%nat.
Proof.
  induction l as [|v r IH]; intros seen; cbn [keep_first List.length].
  - lia.
  - destruct (known (videoId v) seen).
    + specialize (IH seen). lia.
    + cbn [List.length]. specialize (IH (seen ++ [videoId v])). lia.
Qed.

Lemma dedupe_length (l : list YouTubeVideoData) :
  (List.length (dedupe l) <= List.length l)%nat.
Proof.
  rewrite <- (length_map videoId (dedupe l)), dedupe_ids, length_map.
  apply keep_first_length.
Qed.

Lemma found_length (msg : jsstring) (yt : YouTube) (query apiKey : jsstring)
    (lo hi : option Z) :
  (List.length (found (searchVideos msg yt query apiKey (Some 15%Z) lo hi))
   <= 15)%nat.
Proof.
  destruct (searchVideos msg yt query apiKey (Some 15) lo hi)
    as [e|videos] eqn:H; cbn [found List.length]; [lia|].
  assert (Hone : 1 <= 15) by lia.
  pose proof (searchVideos_length msg yt query apiKey 15 lo hi videos
                (or_introl Hone) H).
  lia.
Qed.

Lemma concat_mapi_length {A B : Type} (f : A -> nat -> list B) (n : nat)
    (l : list A) :
  (forall x j, List.length (f x j) <= n)%nat ->
  forall i, (List.length (List.concat (mapi f l i)) <= n * List.length l)%nat.
Proof.
  intros Hf. induction l as [|x r IH]; intros i; cbn [mapi List.concat List.length].
  - lia.
  - rewrite length_app. specialize (Hf x i). specialize (IH (S i)). lia.
Qed.

(** X18: the searches of one call bring at most 15 entries for each mood,
    and at most 20 candidates, never more than were found, go to the
    oracle. *)
Theorem candidates_bounded (YOUTUBE_API_KEY : jsstring)
    (msg_match_of_undefined : jsstring) (w : World)
    (time : Z) (moods : list jsstring) :
  (List.length (allVideos YOUTUBE_API_KEY msg_match_of_undefined w time moods)
   <= 15 * List.length moods)%nat
  /\ (List.length (uniqueVideos YOUTUBE_API_KEY msg_match_of_undefined w time
      moods) <= 20)%nat
  /\ (List.length (uniqueVideos YOUTUBE_API_KEY msg_match_of_undefined w time
      moods)
      <= List.length (allVideos YOUTUBE_API_KEY msg_match_of_undefined w time
          moods))%nat.
Proof.
  split; [|split].
  - rewrite allVideos_searches. apply concat_mapi_length.
    intros mood j. apply found_length.
  - unfold uniqueVideos, uniqueVideos_of. apply firstn_le_length.
  - unfold uniqueVideos, uniqueVideos_of. rewrite length_firstn.
    pose proof (dedupe_length (allVideos YOUTUBE_API_KEY msg_match_of_undefined
        w time moods)). lia.
Qed.

(** ** Padding *)

Lemma toString_short (n : N) : (n < 10)%N -> List.length (toString n) = 1%nat.
Proof.
  intros Hn. rewrite <- (N2Nat.id n).
  assert (Hk : (N.to_nat n < 10)%nat) by lia.
  destruct (N.to_nat n) as [|k]; [reflexivity|].
  do 9 (destruct k as [|k]; [reflexivity|]). lia.
Qed.

Lemma two_digits_short (n : N) :
  (n < 10)%N -> two_digits n = ch "0" :: toString n.
Proof.
  intros Hn. unfold two_digits, padStart. rewrite (toString_short n Hn).
  reflexivity.
Qed.

(** X19: [formatDuration] writes seconds below ten, and minutes below ten
    beside hours, with a leading zero, and minutes without hours as they
    are; so the field after a colon always has at least two digits. *)
Theorem formatDuration_pads (h m s : option N) :
  safe h -> safe m -> safe s ->
  ((or_zero s < 10)%N -> or_zero h = 0%N ->
   formatDuration (iso_duration h m s)
   = toString (or_zero m) ++ lit ":0" ++ toString (or_zero s))
  /\ ((or_zero m < 10)%N -> (0 < or_zero h)%N ->
      formatDuration (iso_duration h m s)
      = toString (or_zero h) ++ lit ":0" ++ toString (or_zero m) ++ lit ":"
          ++ two_digits (or_zero s))
  /\ (2 <= List.length (two_digits (or_zero s)))%nat
  /\ (2 <= List.length (two_digits (or_zero m)))%nat.
Proof.
  intros _ _ _.
  assert (Hlen : forall n, (2 <= List.length (two_digits n))%nat).
  { intros n. destruct (N.lt_ge_cases n 10) as [Hlt|Hge].
    - rewrite (two_digits_short n Hlt). cbn [List.length].
      rewrite (toString_short n Hlt). lia.
    - rewrite (two_digits_long n Hge). apply toString_long. exact Hge. }
  split; [|split; [|split; apply Hlen]].
  - intros Hs Hh. rewrite formatDuration_components, Hh.
    change (0 <? 0)%N with false. cbv iota. unfold format_M_SS.
    rewrite (two_digits_short _ Hs). reflexivity.
  - intros Hm Hh. rewrite formatDuration_components.
    apply N.ltb_lt in Hh. rewrite Hh. unfold format_H_MM_SS.
    rewrite (two_digits_short _ Hm). reflexivity.
Qed.

Lemma formatDuration_pads_witness :
  formatDuration (iso_duration None (Some 5%N) (Some 7%N))
  = toString 5 ++ lit ":0" ++ toString 7.
Proof.
  apply (proj1 (formatDuration_pads None (Some 5%N) (Some 7%N) I
                  ltac:(vm_compute; discriminate)
                  ltac:(vm_compute; discriminate)));
    reflexivity.
Defined.
